(** * bitcore-lib-doge: block header (lib/block/blockheader.js)

    A shallow embedding of the Dogecoin block header of bitcore-lib-doge:
    the compact-bits target and difficulty, the 80-byte wire encoding and
    the identity hash, the constructor's hash check, proof-of-work
    validation, and the decoder with its AuxPoW payload.

    JavaScript numbers that hold integers are [Z]; buffers are lists of
    [Byte.byte]; the arbitrary-precision [BN] is [Z]; a call that can throw
    returns a [result]. *)

From Stdlib Require Import String Ascii.
From Stdlib Require Import ZArith List Lia Bool.
From Stdlib Require Import Floats SpecFloat.
From Stdlib Require Init.Byte.
Import ListNotations.

Local Open Scope Z_scope.

(** ** Bytes and buffers *)

Definition byte : Type := Init.Byte.byte.
Definition bytes := list byte.

Definition Z_of_byte (b : byte) : Z := Z.of_N (Byte.to_N b).

Definition byte_of_Z (z : Z) : byte :=
  match Byte.of_N (Z.to_N (z mod 256)) with
  | Some b => b
  | None => Byte.x00
  end.

Definition blen (b : bytes) : Z := Z.of_nat (length b).

(** ** Errors thrown by the library, and results *)

Inductive Error : Type :=
| TruncatedStream   (* a read past the end of the buffer *)
| OutOfRange        (* an integer that does not fit the width written *)
| TypeError         (* a JavaScript TypeError *)
| StateMismatch     (* $.checkState failed *)
| InvalidVarint     (* a varint the reader refuses *)
| InvalidScript.    (* a script the script constructor refuses *)

Inductive result (A : Type) : Type :=
| Ok (a : A)
| Err (e : Error).
Arguments Ok {A} a.
Arguments Err {A} e.

Definition bind {A B : Type} (r : result A) (k : A -> result B) : result B :=
  match r with
  | Ok a => k a
  | Err e => Err e
  end.

Notation "x <- c ;; k" := (bind c (fun x => k))
  (at level 61, c at next level, right associativity).

(** ** JavaScript's 32-bit integer operators *)

Module JS.

Definition ToUint32 (x : Z) : Z := x mod 2 ^ 32.

Definition ToInt32 (x : Z) : Z :=
  let u := x mod 2 ^ 32 in
  if u <? 2 ^ 31 then u else u - 2 ^ 32.

(** [a & b] *)
Definition and (a b : Z) : Z := Z.land (ToInt32 a) (ToInt32 b).

(** [a >>> n] *)
Definition ushr (a n : Z) : Z := Z.shiftr (ToUint32 a) (n mod 32).

(** [a >> n] *)
Definition shr (a n : Z) : Z := Z.shiftr (ToInt32 a) (n mod 32).

(** [a << n] *)
Definition shl (a n : Z) : Z := ToInt32 (Z.shiftl (ToInt32 a) (n mod 32)).

(** [Boolean(n)], and the truthiness of a number under [||], [!] and [if]. *)
Definition truthy (n : Z) : bool := negb (n =? 0).

(** [a || b] on numbers, [a] possibly [undefined]. *)
Definition or_default (a : option Z) (b : Z) : Z :=
  match a with
  | Some n => if truthy n then n else b
  | None => b
  end.

(** The truthiness of a string: every string but the empty one. *)
Definition truthy_string (s : string) : bool :=
  match s with
  | EmptyString => false
  | String _ _ => true
  end.

End JS.

(** ** Integers on the wire *)

Fixpoint le_bytes (n : nat) (z : Z) : bytes :=
  match n with
  | O => []
  | S n' => byte_of_Z z :: le_bytes n' (z / 256)
  end.

Fixpoint le_value (b : bytes) : Z :=
  match b with
  | [] => 0
  | x :: r => Z_of_byte x + 256 * le_value r
  end.

Definition be_value (b : bytes) : Z := le_value (rev b).

Definition is_int32 (n : Z) : bool := (- 2 ^ 31 <=? n) && (n <? 2 ^ 31).
Definition is_uint32 (n : Z) : bool := (0 <=? n) && (n <? 2 ^ 32).

(** ** Hexadecimal strings: [buf.toString('hex')] and [Buffer.from(s, 'hex')] *)

Definition hex_digit (n : Z) : ascii :=
  ascii_of_nat (Z.to_nat (if n <? 10 then 48 + n else 87 + n)).

Fixpoint to_hex (b : bytes) : string :=
  match b with
  | [] => EmptyString
  | x :: r =>
      String (hex_digit (Z_of_byte x / 16))
        (String (hex_digit (Z_of_byte x mod 16)) (to_hex r))
  end.

Definition hex_value (c : ascii) : option Z :=
  let n := Z.of_nat (nat_of_ascii c) in
  if (48 <=? n) && (n <=? 57) then Some (n - 48)
  else if (97 <=? n) && (n <=? 102) then Some (n - 87)
  else if (65 <=? n) && (n <=? 70) then Some (n - 55)
  else None.

(** Node decodes pairs of hexadecimal digits and stops at the first pair
    that is not one. *)
Fixpoint from_hex (s : string) : bytes :=
  match s with
  | String c1 (String c2 r) =>
      match hex_value c1, hex_value c2 with
      | Some h, Some l => byte_of_Z (16 * h + l) :: from_hex r
      | _, _ => []
      end
  | _ => []
  end.

(** ** encoding/bufferwriter.js *)

Module BufferWriter.

(** Modelled from the spec: the byte-buffer writer of
    encoding/bufferwriter.js, a file that is not among the verified sources:
    "the mirror-image writes" of the reader, a list of chunks that [concat]
    joins, and fixed-width writes that refuse a value outside the width's
    range. *)
Record t : Type := mk { bufs : list bytes }.

Definition new : t := mk [].

Definition write (bw : t) (b : bytes) : t := mk (bufs bw ++ [b]).

Definition concat (bw : t) : bytes := List.concat (bufs bw).

Definition writeInt32LE (bw : t) (n : Z) : result t :=
  if is_int32 n then Ok (write bw (le_bytes 4 n)) else Err OutOfRange.

Definition writeUInt32LE (bw : t) (n : Z) : result t :=
  if is_uint32 n then Ok (write bw (le_bytes 4 n)) else Err OutOfRange.

End BufferWriter.

(** ** encoding/bufferreader.js *)

Module BufferReader.

(** Modelled from the spec: the byte-buffer reader of
    encoding/bufferreader.js, a file that is not among the verified sources:
    a buffer and a position cursor; "any read past the end of the available
    bytes" is a decoding error, never a short or zero-filled value. *)
Record t : Type := mk { buf : bytes; pos : Z }.

(** A read: it fails, or returns a value and the reader moved on. *)
Definition M (A : Type) : Type := t -> result (A * t).

Definition ret {A : Type} (a : A) : M A := fun br => Ok (a, br).

Definition bindM {A B : Type} (m : M A) (k : A -> M B) : M B :=
  fun br =>
    match m br with
    | Ok (a, br') => k a br'
    | Err e => Err e
    end.

Definition lift {A : Type} (r : result A) : M A :=
  fun br =>
    match r with
    | Ok a => Ok (a, br)
    | Err e => Err e
    end.

Definition remaining (br : t) : Z := blen (buf br) - pos br.

(** [br.buf.slice(pos, pos + len)], refused when it would run past the end. *)
Definition peek (len : Z) (br : t) : result bytes :=
  if (0 <=? pos br) && (0 <=? len) && (pos br + len <=? blen (buf br))
  then Ok (firstn (Z.to_nat len) (skipn (Z.to_nat (pos br)) (buf br)))
  else Err TruncatedStream.

Definition read (len : Z) : M bytes :=
  fun br =>
    match peek len br with
    | Ok b => Ok (b, mk (buf br) (pos br + len))
    | Err e => Err e
    end.

Definition readReverse (len : Z) : M bytes :=
  bindM (read len) (fun b => ret (rev b)).

Definition readInt32LE : M Z :=
  bindM (read 4) (fun b => ret (JS.ToInt32 (le_value b))).

Definition readUInt32LE : M Z :=
  bindM (read 4) (fun b => ret (le_value b)).

Definition readUInt16BE : M Z :=
  bindM (read 2) (fun b => ret (be_value b)).

(** [br.buf.readUInt16BE(br.pos)]: Node's own read at the cursor, which
    stays where it is. *)
Definition peekUInt16BE : M Z :=
  fun br =>
    match peek 2 br with
    | Ok b => Ok (be_value b, br)
    | Err e => Err e
    end.

(** [for (let i = 0; i < n; i++) { list.push(body()); }] *)
Fixpoint for_push {A : Type} (n : nat) (body : M A) : M (list A) :=
  match n with
  | O => ret []
  | S n' => bindM body (fun x => bindM (for_push n' body) (fun xs => ret (x :: xs)))
  end.

End BufferReader.

Notation "x <~ c ;; k" := (BufferReader.bindM c (fun x => k))
  (at level 61, c at next level, right associativity).

(** ** The AuxPoW payload and the header

    The payload's shapes are the object literals of [_parseAuxPoW]. *)

Record PrevOutput : Type := MkPrevOutput {
  po_hash : bytes;
  po_index : bytes
}.

Record TxIn : Type := MkTxIn {
  prevOutput : PrevOutput;
  in_scriptLen : Z;
  in_script : bytes;
  sequence : Z
}.

(** [new Script(pkScript)]: the output script object of the script module,
    kept as the bytes it was built from. *)
Record Script : Type := MkScript { script_bytes : bytes }.

Record TxOut : Type := MkTxOut {
  value : bytes;
  out_scriptLen : Z;
  out_script : Script
}.

Record Txn : Type := MkTxn {
  tx_version : Z;
  flag : Z;
  txInCount : Z;
  txIn : list TxIn;
  txOutCount : Z;
  txOut : list TxOut;
  txWitnesses : list bytes;
  lockTime : Z
}.

Record MerkleBranch : Type := MkMerkleBranch {
  branchLen : Z;
  branchHashes : list bytes;
  branchSideMask : Z
}.

(** [_id] is the cell the [id]/[hash] getter memoizes in. *)
Inductive BlockHeader : Type := MkBlockHeader {
  version : Z;
  prevHash : bytes;
  merkleRoot : bytes;
  time : Z;
  timestamp : Z;
  bits : Z;
  nonce : Z;
  _auxpow : option AuxPow;
  _id : option string
}
with AuxPow : Type := MkAuxPow {
  coinbaseTxn : Txn;
  blockHash : bytes;
  coinbaseBranch : MerkleBranch;
  blockchainBranch : MerkleBranch;
  parentBlock : BlockHeader
}.

(** A hash in an argument object: a hexadecimal string or a buffer. *)
Inductive HashField : Type :=
| HexString (s : string)
| Buf (b : bytes).

(** The argument object of the constructor and of [fromObject]. *)
Record FieldMap : Type := MkFieldMap {
  fm_hash : option string;
  fm_version : Z;
  fm_prevHash : HashField;
  fm_merkleRoot : HashField;
  fm_time : Z;
  fm_bits : Z;
  fm_nonce : Z;
  fm_auxpow : option AuxPow
}.

(** The [info] object that [_from] hands to the constructor. *)
Record Info : Type := MkInfo {
  info_hash : option string;
  info_version : Z;
  info_prevHash : bytes;
  info_merkleRoot : bytes;
  info_time : Z;
  info_timestamp : option Z;
  info_bits : Z;
  info_nonce : Z;
  info_auxpow : option AuxPow
}.

(** What the constructor accepts: a Buffer, an object, or anything else. *)
Inductive Arg : Type :=
| ArgBuffer (b : bytes)
| ArgObject (o : FieldMap)
| ArgOther.

Definition GENESIS_BITS : Z := 0x1e0ffff0.

(** [BlockHeader.Constants]: the start of the header in raw block data, the
    most a timestamp may lie in the future, in seconds, and the bound of the
    256-bit hashes. *)
Definition START_OF_HEADER : Z := 0.
Definition MAX_TIME_OFFSET : Z := 2 * 60 * 60.

(** [LARGEST_HASH], the hexadecimal numeral 1 followed by 64 zeros. *)
Definition LARGEST_HASH : Z :=
  0x10000000000000000000000000000000000000000000000000000000000000000.

(** [BlockHeader.prototype.isAuxPow]: [Boolean(this.version & (1 << 8))]. *)
Definition isAuxPow (this : BlockHeader) : bool :=
  JS.truthy (JS.and (version this) (JS.shl 1 8)).

(** The [auxpow] getter. *)
Definition auxpow (this : BlockHeader) : option AuxPow :=
  if isAuxPow this then _auxpow this else None.

(** ** Target and difficulty *)

(** [while (mov-- > 0) { target = target.mul(new BN(2)); }] *)
Fixpoint target_loop (fuel : nat) (mov target : Z) : Z :=
  match fuel with
  | O => target
  | S fuel' =>
      if 0 <? mov then target_loop fuel' (mov - 1) (target * 2) else target
  end.

(** [BlockHeader.prototype.getTargetDifficulty]; [arg] is the optional
    [bits] argument, [None] when the call passes none. The loop gets the
    [mov] rounds it can run. *)
Definition getTargetDifficulty (this : BlockHeader) (arg : option Z) : Z :=
  let bits := JS.or_default arg (bits this) in
  let target := JS.and bits 0xffffff in
  let mov := 8 * (JS.ushr bits 24 - 3) in
  target_loop (Z.to_nat mov) mov target.

Definition float_of_Z (z : Z) : float := PrimFloat.of_uint63 (Uint63.of_Z z).

(** [while (decimalShift < 29) { difficulty *= 256.0; decimalShift++; }] *)
Fixpoint shift_up (fuel : nat) (decimalShift : Z) (difficulty : float) : Z * float :=
  match fuel with
  | O => (decimalShift, difficulty)
  | S fuel' =>
      if decimalShift <? 29
      then shift_up fuel' (decimalShift + 1) (difficulty * 256)%float
      else (decimalShift, difficulty)
  end.

(** [while (decimalShift > 29) { difficulty /= 256.0; decimalShift--; }] *)
Fixpoint shift_down (fuel : nat) (decimalShift : Z) (difficulty : float) : Z * float :=
  match fuel with
  | O => (decimalShift, difficulty)
  | S fuel' =>
      if 29 <? decimalShift
      then shift_down fuel' (decimalShift - 1) (difficulty / 256)%float
      else (decimalShift, difficulty)
  end.

(** [x.toFixed(19)] of a finite [x = m * 2^e] below 1e21: the integer [n]
    with [n / 10^19] nearest to [x], the larger one on a tie. *)
Definition toFixed19_digits (m : positive) (e : Z) : Z :=
  let num := Z.pos m * 10 ^ 19 in
  if 0 <=? e then num * 2 ^ e else (2 * num + 2 ^ (- e)) / 2 ^ (- e + 1).

(** [parseFloat] of the decimal string of [n / 10^19]: the nearest double,
    ties to even. *)
Definition parseFloat_fixed19 (n : Z) : float :=
  match n with
  | Z.pos p =>
      SF2Prim (SFdiv prec emax (S754_finite false p 0)
                 (S754_finite false (Z.to_pos (10 ^ 19)) 0))
  | _ => 0%float
  end.

(** [parseFloat(x.toFixed(19))]. [toFixed] prints an infinity, a NaN and a
    number from 1e21 on as [String(x)] does, which [parseFloat] reads back. *)
Definition parseFloat_toFixed19 (x : float) : float :=
  match Prim2SF x with
  | S754_finite s m e =>
      if (1e21 <=? PrimFloat.abs x)%float then x
      else
        let r := parseFloat_fixed19 (toFixed19_digits m e) in
        if s then (- r)%float else r
  | _ => x
  end.

(** [BlockHeader.prototype.getDifficulty] *)
Definition getDifficulty (this : BlockHeader) : float :=
  if negb (JS.truthy (bits this)) then 1.0%float
  else
    let decimalShift := JS.and (JS.shr (bits this) 24) 0xff in
    let difficulty := (float_of_Z 0x0000ffff / float_of_Z (JS.and (bits this) 0x00ffffff))%float in
    let '(decimalShift, difficulty) :=
      shift_up (Z.to_nat (29 - decimalShift)) decimalShift difficulty in
    let '(decimalShift, difficulty) :=
      shift_down (Z.to_nat (decimalShift - 29)) decimalShift difficulty in
    parseFloat_toFixed19 difficulty.

(** [BlockHeader.prototype.validTimestamp]; [currentTime] is the clock
    reading [Math.round(new Date().getTime() / 1000)]. *)
Definition validTimestamp (this : BlockHeader) (currentTime : Z) : bool :=
  if time this >? currentTime + MAX_TIME_OFFSET then false else true.

(** ** The header's operations

    The collaborators whose modules are not among the verified sources are
    the section's variables. *)

Section Header.

(** [Hash.sha256sha256] of crypto/hash, and the external scrypt primitive:
    the digest of its input, as the primitive gives it. *)
Variable sha256sha256 : bytes -> bytes.
Variable scrypt : bytes -> bytes.

(** [AuxPow.prototype.toBufferWriter] of block/auxpow. *)
Variable AuxPow_toBufferWriter : AuxPow -> BufferWriter.t -> result BufferWriter.t.

(** [BufferReader.prototype.readVarintNum] of encoding/bufferreader. *)
Variable readVarintNum : BufferReader.M Z.

(** Modelled from the spec: [new BN(Hash.scrypt(hashBuf))], of crypto/bn and
    crypto/hash, files that are not among the verified sources. The input is
    hashed "with the external scrypt primitive" and the call "interprets the
    digest as a little-endian unsigned integer": [digest] is the primitive's
    digest, whatever byte order [Hash.scrypt] hands to [BN]. *)
Definition BN_of_digest (digest : bytes) : Z := le_value digest.

(** [BlockHeader.prototype.toBufferWriter] *)
Definition toBufferWriter (this : BlockHeader) (bw : option BufferWriter.t)
    (includeAuxPow : bool) : result BufferWriter.t :=
  let bw := match bw with Some w => w | None => BufferWriter.new end in
  bw <- BufferWriter.writeInt32LE bw (version this) ;;
  let bw := BufferWriter.write bw (prevHash this) in
  let bw := BufferWriter.write bw (merkleRoot this) in
  bw <- BufferWriter.writeUInt32LE bw (time this) ;;
  bw <- BufferWriter.writeUInt32LE bw (bits this) ;;
  bw <- BufferWriter.writeUInt32LE bw (nonce this) ;;
  if includeAuxPow && isAuxPow this then
    match auxpow this with
    | Some a => AuxPow_toBufferWriter a bw
    | None => Err TypeError
    end
  else Ok bw.

(** [BlockHeader.prototype.toBuffer] *)
Definition toBuffer (this : BlockHeader) (includeAuxPow : bool) : result bytes :=
  bw <- toBufferWriter this None includeAuxPow ;;
  Ok (BufferWriter.concat bw).

(** [BlockHeader.prototype._getHash] *)
Definition _getHash (this : BlockHeader) : result bytes :=
  buf <- toBuffer this false ;;
  Ok (sha256sha256 buf).

Definition set_id (this : BlockHeader) (s : string) : BlockHeader :=
  MkBlockHeader (version this) (prevHash this) (merkleRoot this) (time this)
    (timestamp this) (bits this) (nonce this) (_auxpow this) (Some s).

(** The getter of [id] and [hash]: the value, and the header with its
    memo cell filled. *)
Definition hash (this : BlockHeader) : result (string * BlockHeader) :=
  let compute :=
    h <- _getHash this ;;
    let s := to_hex (rev h) in
    Ok (s, set_id this s) in
  match _id this with
  | Some s => if JS.truthy_string s then Ok (s, this) else compute
  | None => compute
  end.

(** [BlockHeader.prototype.validProofOfWork] *)
Definition validProofOfWork (this : BlockHeader) : result bool :=
  hashBuf <-
    (if isAuxPow this then
       match auxpow this with
       | Some a => toBuffer (parentBlock a) true
       | None => Err TypeError
       end
     else toBuffer this true) ;;
  let pow := BN_of_digest (scrypt hashBuf) in
  let target := getTargetDifficulty this None in
  if pow >? target then Ok false else Ok true.

(** [BlockHeader._fromObject] *)
Definition _fromObject (data : FieldMap) : Info :=
  let prevHash :=
    match fm_prevHash data with
    | HexString s => rev (from_hex s)
    | Buf b => b
    end in
  let merkleRoot :=
    match fm_merkleRoot data with
    | HexString s => rev (from_hex s)
    | Buf b => b
    end in
  MkInfo (fm_hash data) (fm_version data) prevHash merkleRoot (fm_time data)
    (Some (fm_time data)) (fm_bits data) (fm_nonce data) (fm_auxpow data).

(** [new BlockHeader(info)] reads an [info] object back as its argument. *)
Definition object_of_info (info : Info) : FieldMap :=
  MkFieldMap (info_hash info) (info_version info) (Buf (info_prevHash info))
    (Buf (info_merkleRoot info)) (info_time info) (info_bits info)
    (info_nonce info) (info_auxpow info).

(** The constructor's assignments, [this.version = info.version] to
    [this._auxpow = info.auxpow]; the memo cell starts empty. *)
Definition assign_fields (info : Info) : BlockHeader :=
  MkBlockHeader (info_version info) (info_prevHash info)
    (info_merkleRoot info) (info_time info) (info_time info)
    (info_bits info) (info_nonce info) (info_auxpow info) None.

(** *** The AuxPoW parse of [_parseAuxPoW] *)

Section Parse.

(** [new Script(pkScript)] of script, a file that is not among the verified
    sources: the constructor parses the bytes and throws on a malformed
    script. [Script_accepts] says which bytes it takes; the object is kept
    as the bytes it was built from. *)
Variable Script_accepts : bytes -> bool.

(** [new BlockHeader(buf)], as the parse calls it for the parent block. *)
Variable newBlockHeader : bytes -> result BlockHeader.

Definition Script_new (b : bytes) : result Script :=
  if Script_accepts b then Ok (MkScript b) else Err InvalidScript.

Definition getTxIn : BufferReader.M TxIn :=
  hash <~ BufferReader.read 32 ;;
  index <~ BufferReader.read 4 ;;
  scriptLen <~ readVarintNum ;;
  script <~ BufferReader.read scriptLen ;;
  sequence <~ BufferReader.readUInt32LE ;;
  BufferReader.ret (MkTxIn (MkPrevOutput hash index) scriptLen script sequence).

Definition getTxOut : BufferReader.M TxOut :=
  value <~ BufferReader.read 8 ;;
  pkScriptLen <~ readVarintNum ;;
  pkScript <~ BufferReader.read pkScriptLen ;;
  script <~ BufferReader.lift (Script_new pkScript) ;;
  BufferReader.ret (MkTxOut value pkScriptLen script).

(** One input's witness components: the inner loop over [j]. *)
Definition getComponents : BufferReader.M (list bytes) :=
  componentCnt <~ readVarintNum ;;
  BufferReader.for_push (Z.to_nat componentCnt)
    (componentLen <~ readVarintNum ;; BufferReader.read componentLen).

Definition getTxn : BufferReader.M Txn :=
  version <~ BufferReader.readInt32LE ;;
  marker <~ BufferReader.peekUInt16BE ;;
  flag <~ (if marker =? 1 then BufferReader.readUInt16BE else BufferReader.ret 0) ;;
  txInCount <~ readVarintNum ;;
  txIn <~ BufferReader.for_push (Z.to_nat txInCount) getTxIn ;;
  txOutCount <~ readVarintNum ;;
  txOut <~ BufferReader.for_push (Z.to_nat txOutCount) getTxOut ;;
  txWitnesses <~
    (if JS.truthy flag
     then
       per_input <~ BufferReader.for_push (Z.to_nat txInCount) getComponents ;;
       BufferReader.ret (List.concat per_input)
     else BufferReader.ret []) ;;
  lockTime <~ BufferReader.readUInt32LE ;;
  BufferReader.ret
    (MkTxn version flag txInCount txIn txOutCount txOut txWitnesses lockTime).

Definition merkleBranch : BufferReader.M MerkleBranch :=
  branchLen <~ readVarintNum ;;
  branchHashes <~
    BufferReader.for_push (Z.to_nat branchLen) (BufferReader.readReverse 32) ;;
  branchSideMask <~ BufferReader.readInt32LE ;;
  BufferReader.ret (MkMerkleBranch branchLen branchHashes branchSideMask).

(** The body of [_parseAuxPoW] below its flag test, returning the payload
    it builds. *)
Definition parseAuxPoW : BufferReader.M AuxPow :=
  coinbaseTxn <~ getTxn ;;
  blockHash <~ BufferReader.read 32 ;;
  coinbaseBranch <~ merkleBranch ;;
  blockchainBranch <~ merkleBranch ;;
  parentBytes <~ BufferReader.read 80 ;;
  parentBlock <~ BufferReader.lift (newBlockHeader parentBytes) ;;
  BufferReader.ret
    (MkAuxPow coinbaseTxn blockHash coinbaseBranch blockchainBranch parentBlock).

(** [this.auxpow = value] in strict code: [auxpow] is defined on the
    prototype with a getter and no setter, so the assignment throws a
    TypeError. *)
Definition assign_auxpow (this : BlockHeader) (value : AuxPow) : result BlockHeader :=
  Err TypeError.

(** [BlockHeader.prototype._parseAuxPoW] *)
Definition _parseAuxPoW (this : BlockHeader) : BufferReader.M BlockHeader :=
  if negb (JS.truthy (JS.and (version this) (JS.shl 1 8)))
  then BufferReader.ret this
  else
    payload <~ parseAuxPoW ;;
    this' <~ BufferReader.lift (assign_auxpow this payload) ;;
    BufferReader.ret this'.

End Parse.

(** *** The payload's decoder, and the header's *)

(** Modelled from the spec: the parent block of a payload, built by
    block/auxpow.js, a file that is not among the verified sources: "a nested
    Header, decoded from exactly 80 raw bytes with AuxPoW parsing disabled
    for this nested instance". The six fixed fields are read as
    [_fromBufferReader] reads them and assigned as the constructor assigns
    them; no payload is looked for, whatever the version says. *)
Definition nested_header (b : bytes) : result BlockHeader :=
  match
    (version <~ BufferReader.readInt32LE ;;
     prevHash <~ BufferReader.read 32 ;;
     merkleRoot <~ BufferReader.read 32 ;;
     time <~ BufferReader.readUInt32LE ;;
     bits <~ BufferReader.readUInt32LE ;;
     nonce <~ BufferReader.readUInt32LE ;;
     BufferReader.ret
       (MkInfo None version prevHash merkleRoot time None bits nonce None))
      (BufferReader.mk b 0)
  with
  | Ok (info, _) => Ok (assign_fields info)
  | Err e => Err e
  end.

(** Modelled from the spec: to the payload's decoder an output is an "8-byte
    value" and a "length-prefixed output script", a range of bytes that it
    takes as it is. *)
Definition any_script (b : bytes) : bool := true.

(** Modelled from the spec: [new AuxPow(info, br)], of block/auxpow.js, a
    file that is not among the verified sources. The header's decoder reads
    the fixed fields, "then -- only if version & 0x100 -- decodes an AuxPow
    from the remaining stream", which consumes "one legacy transaction, 32
    raw bytes (blockHash), two Merkle branches, and exactly 80 bytes
    reinterpreted as a nested Header with AuxPoW decoding suppressed". The
    transaction and the branches are read as [_parseAuxPoW] writes the reads
    out. *)
Definition AuxPow_new (version : Z) : BufferReader.M (option AuxPow) :=
  if negb (JS.truthy (JS.and version (JS.shl 1 8)))
  then BufferReader.ret None
  else a <~ parseAuxPoW any_script nested_header ;; BufferReader.ret (Some a).

(** [BlockHeader._fromBufferReader] *)
Definition _fromBufferReader : BufferReader.M Info :=
  version <~ BufferReader.readInt32LE ;;
  prevHash <~ BufferReader.read 32 ;;
  merkleRoot <~ BufferReader.read 32 ;;
  time <~ BufferReader.readUInt32LE ;;
  bits <~ BufferReader.readUInt32LE ;;
  nonce <~ BufferReader.readUInt32LE ;;
  auxpow <~ AuxPow_new version ;;
  BufferReader.ret (MkInfo None version prevHash merkleRoot time None bits nonce auxpow).

(** [BlockHeader._from] *)
Definition _from (arg : Arg) : result Info :=
  match arg with
  | ArgBuffer b =>
      match _fromBufferReader (BufferReader.mk b 0) with
      | Ok (info, _) => Ok info
      | Err e => Err e
      end
  | ArgObject o => Ok (_fromObject o)
  | ArgOther => Err TypeError
  end.

(** The constructor, [new BlockHeader(arg)]. *)
Definition newBlockHeader (arg : Arg) : result BlockHeader :=
  info <- _from arg ;;
  let this := assign_fields info in
  match info_hash info with
  | Some supplied =>
      if JS.truthy_string supplied then
        r <- hash this ;;
        if String.eqb (fst r) supplied then Ok (snd r) else Err StateMismatch
      else Ok this
  | None => Ok this
  end.

(** [BlockHeader.fromObject] *)
Definition fromObject (obj : FieldMap) : result BlockHeader :=
  let info := _fromObject obj in
  newBlockHeader (ArgObject (object_of_info info)).

(** [BlockHeader.fromBufferReader] *)
Definition fromBufferReader (br : BufferReader.t) : result (BlockHeader * BufferReader.t) :=
  match _fromBufferReader br with
  | Ok (info, br') =>
      this <- newBlockHeader (ArgObject (object_of_info info)) ;;
      Ok (this, br')
  | Err e => Err e
  end.

(** [BlockHeader.fromBuffer] *)
Definition fromBuffer (buf : bytes) : result BlockHeader :=
  r <- fromBufferReader (BufferReader.mk buf 0) ;;
  Ok (fst r).

(** [BlockHeader.fromString] *)
Definition fromString (str : string) : result BlockHeader :=
  fromBuffer (from_hex str).

(** [BlockHeader.fromRawBlock], on a buffer. *)
Definition fromRawBlock (data : bytes) : result BlockHeader :=
  r <- fromBufferReader (BufferReader.mk data START_OF_HEADER) ;;
  Ok (fst r).

(** [BlockHeader.prototype.toObject] and [toJSON]: the object, and the header
    with its memo cell filled by the read of [this.hash]. *)
Definition toObject (this : BlockHeader) : result (FieldMap * BlockHeader) :=
  r <- hash this ;;
  Ok (MkFieldMap (Some (fst r)) (version this)
        (HexString (to_hex (rev (prevHash this))))
        (HexString (to_hex (rev (merkleRoot this))))
        (time this) (bits this) (nonce this) None,
      snd r).

(** [BlockHeader.prototype.toString] *)
Definition toString (this : BlockHeader) : result string :=
  buf <- toBuffer this true ;;
  Ok (to_hex buf).

End Header.

(** ** The vocabulary of the statements *)

(** The exponent byte of a compact [bits]. *)
Definition exponent_byte (b : Z) : Z := Z.land (Z.shiftr b 24) 0xFF.

(** The header's fixed-width fields fit their widths. *)
Definition fields_ok (h : BlockHeader) : Prop :=
  is_int32 (version h) = true
  /\ length (prevHash h) = 32%nat
  /\ length (merkleRoot h) = 32%nat
  /\ is_uint32 (time h) = true
  /\ is_uint32 (bits h) = true
  /\ is_uint32 (nonce h) = true.

(** The 80 bytes of the fixed fields, in wire order. *)
Definition fixed_bytes (h : BlockHeader) : bytes :=
  le_bytes 4 (version h) ++ prevHash h ++ merkleRoot h
  ++ le_bytes 4 (time h) ++ le_bytes 4 (bits h) ++ le_bytes 4 (nonce h).

(** The writer's chunks after the six fixed fields. *)
Definition fixed_chunks (h : BlockHeader) : BufferWriter.t :=
  BufferWriter.mk
    [le_bytes 4 (version h); prevHash h; merkleRoot h;
     le_bytes 4 (time h); le_bytes 4 (bits h); le_bytes 4 (nonce h)].

(** Two headers agree on the fields the wire format fixes. *)
Definition same_fixed_fields (h1 h2 : BlockHeader) : Prop :=
  version h1 = version h2
  /\ prevHash h1 = prevHash h2
  /\ merkleRoot h1 = merkleRoot h2
  /\ time h1 = time h2
  /\ bits h1 = bits h2
  /\ nonce h1 = nonce h2.

(** The value the [hash] getter returns. *)
Definition hash_value (r : result (string * BlockHeader)) : result string :=
  p <- r ;; Ok (fst p).

(** The shape of a decoded header: its fields fit their widths and, when it
    carries the AuxPoW flag, it holds a payload whose parent block has fields
    in range and no payload of its own, whatever its version says. *)
Definition decoded_shape (h : BlockHeader) : Prop :=
  fields_ok h
  /\ (isAuxPow h = true ->
      exists a, _auxpow h = Some a
                /\ fields_ok (parentBlock a)
                /\ _auxpow (parentBlock a) = None).

(** The header whose encoding is hashed: the parent block of the payload
    when the header has AuxPoW, the header itself otherwise. *)
Definition pow_subject (h : BlockHeader) : option BlockHeader :=
  if isAuxPow h then option_map parentBlock (auxpow h) else Some h.

(** The version field of a buffer, and the [info] its first 80 bytes give. *)
Definition wire_version (buf : bytes) : Z := JS.ToInt32 (le_value (firstn 4 buf)).

Definition fixed_info (buf : bytes) (a : option AuxPow) : Info :=
  MkInfo None (wire_version buf)
    (firstn 32 (skipn 4 buf)) (firstn 32 (skipn 36 buf))
    (le_value (firstn 4 (skipn 68 buf))) None
    (le_value (firstn 4 (skipn 72 buf)))
    (le_value (firstn 4 (skipn 76 buf))) a.

Definition flagged (v : Z) : bool := JS.truthy (JS.and v (JS.shl 1 8)).

(** A read that takes exactly the bytes [bs], wherever they stand in a
    buffer, returns [x] and leaves the reader behind them. *)
Definition reads {A : Type} (m : BufferReader.M A) (bs : bytes) (x : A) : Prop :=
  forall pre post,
    m (BufferReader.mk (pre ++ bs ++ post) (blen pre))
    = Ok (x, BufferReader.mk (pre ++ bs ++ post) (blen pre + blen bs)).

(** The memo cell agrees with the fields: a cached id is the one the fields
    give. Every header comes out of the constructor and out of the getter
    with such a cell. *)
Definition memo_coherent (sha : bytes -> bytes)
    (enc : AuxPow -> BufferWriter.t -> result BufferWriter.t) (h : BlockHeader) : Prop :=
  forall s, _id h = Some s -> JS.truthy_string s = true ->
    exists digest, _getHash sha enc h = Ok digest /\ s = to_hex (rev digest).

(** [h.bits = b]: the fields are plain properties, an assignment changes the
    one it names and nothing else. *)
Definition assign_bits (h : BlockHeader) (b : Z) : BlockHeader :=
  MkBlockHeader (version h) (prevHash h) (merkleRoot h) (time h) (timestamp h)
    b (nonce h) (_auxpow h) (_id h).

(** What a parsed transaction input and a parsed output hold: the widths
    of the fixed parts, and a script as long as its length field says. *)
Definition txIn_shape (i : TxIn) : Prop :=
  length (po_hash (prevOutput i)) = 32%nat
  /\ length (po_index (prevOutput i)) = 4%nat
  /\ blen (in_script i) = in_scriptLen i
  /\ is_uint32 (sequence i) = true.

Definition txOut_shape (o : TxOut) : Prop :=
  length (value o) = 8%nat
  /\ blen (script_bytes (out_script o)) = out_scriptLen o.

(** What a parsed transaction, a parsed branch and a parsed payload hold. *)
Definition txn_shape (t : Txn) : Prop :=
  is_int32 (tx_version t) = true
  /\ (flag t = 0 \/ flag t = 1)
  /\ length (txIn t) = Z.to_nat (txInCount t)
  /\ length (txOut t) = Z.to_nat (txOutCount t)
  /\ Forall txIn_shape (txIn t)
  /\ Forall txOut_shape (txOut t)
  /\ (flag t = 0 -> txWitnesses t = [])
  /\ is_uint32 (lockTime t) = true
  /\ (txIn t = [] -> txWitnesses t = []).

Definition branch_shape (b : MerkleBranch) : Prop :=
  length (branchHashes b) = Z.to_nat (branchLen b)
  /\ Forall (fun x => length x = 32%nat) (branchHashes b)
  /\ is_int32 (branchSideMask b) = true.

Definition payload_shape (a : AuxPow) : Prop :=
  txn_shape (coinbaseTxn a)
  /\ length (blockHash a) = 32%nat
  /\ branch_shape (coinbaseBranch a)
  /\ branch_shape (blockchainBranch a)
  /\ exists pb, blen pb = 80 /\ parentBlock a = assign_fields (fixed_info pb None).

(** ** The payload's encoder *)

Section PayloadEncoder.

(** [BufferWriter.prototype.writeVarintNum] of encoding/bufferwriter.js, a
    file that is not among the verified sources: the bytes it writes for a
    number. *)
Variable writeVarintNum : Z -> bytes.

(** Modelled from the spec: [AuxPow.prototype.toBufferWriter], of
    block/auxpow.js, a file that is not among the verified sources: the
    "exact structural inverse" of the payload's decoder, in the layout
    "[legacy transaction][32-byte blockHash][Merkle branch: varint count +
    count x 32-byte reversed hashes + int32 side-mask][Merkle branch, same
    shape][80-byte nested header, AuxPoW bit ignored]", the transaction in
    the order its decoder reads it. The payload keeps the witness components
    of its transaction in one list: they are written as the stack of the
    first input, the stacks of the other inputs empty. A value outside the
    range of its fixed width is refused, as the writer refuses it. *)
Definition txIn_bytes (i : TxIn) : bytes :=
  po_hash (prevOutput i) ++ po_index (prevOutput i)
  ++ writeVarintNum (in_scriptLen i) ++ in_script i ++ le_bytes 4 (sequence i).

Definition txOut_bytes (o : TxOut) : bytes :=
  value o ++ writeVarintNum (out_scriptLen o) ++ script_bytes (out_script o).

Definition component_bytes (c : bytes) : bytes := writeVarintNum (blen c) ++ c.

Definition witness_bytes (inputs : nat) (w : list bytes) : bytes :=
  match inputs with
  | O => []
  | S others =>
      writeVarintNum (Z.of_nat (length w)) ++ List.concat (map component_bytes w)
      ++ List.concat (repeat (writeVarintNum 0) others)
  end.

(** What follows the version and the witness flag. *)
Definition txn_body (t : Txn) : bytes :=
  writeVarintNum (txInCount t) ++ List.concat (map txIn_bytes (txIn t))
  ++ writeVarintNum (txOutCount t) ++ List.concat (map txOut_bytes (txOut t))
  ++ (if JS.truthy (flag t)
      then witness_bytes (Z.to_nat (txInCount t)) (txWitnesses t) else [])
  ++ le_bytes 4 (lockTime t).

Definition txn_bytes (t : Txn) : bytes :=
  le_bytes 4 (tx_version t)
  ++ (if JS.truthy (flag t) then rev (le_bytes 2 (flag t)) else [])
  ++ txn_body t.

Definition branch_bytes (b : MerkleBranch) : bytes :=
  writeVarintNum (branchLen b) ++ List.concat (map (@rev byte) (branchHashes b))
  ++ le_bytes 4 (branchSideMask b).

Definition AuxPow_bytes (a : AuxPow) : bytes :=
  txn_bytes (coinbaseTxn a) ++ blockHash a
  ++ branch_bytes (coinbaseBranch a) ++ branch_bytes (blockchainBranch a)
  ++ fixed_bytes (parentBlock a).

Definition header_in_range (h : BlockHeader) : bool :=
  is_int32 (version h) && is_uint32 (time h) && is_uint32 (bits h)
  && is_uint32 (nonce h).

Definition txn_in_range (t : Txn) : bool :=
  is_int32 (tx_version t) && (0 <=? flag t) && (flag t <? 2 ^ 16)
  && forallb (fun i => is_uint32 (sequence i)) (txIn t)
  && is_uint32 (lockTime t).

Definition payload_in_range (a : AuxPow) : bool :=
  txn_in_range (coinbaseTxn a)
  && is_int32 (branchSideMask (coinbaseBranch a))
  && is_int32 (branchSideMask (blockchainBranch a))
  && header_in_range (parentBlock a).

Definition AuxPow_writer (a : AuxPow) (bw : BufferWriter.t) : result BufferWriter.t :=
  if payload_in_range a then Ok (BufferWriter.write bw (AuxPow_bytes a))
  else Err OutOfRange.

End PayloadEncoder.

(** The varint writer mirrors the varint reader on [n]: what it writes for
    [n] the reader reads as [n], taking exactly those bytes. *)
Definition mirrored (rv : BufferReader.M Z) (wv : Z -> bytes) (n : Z) : Prop :=
  reads rv (wv n) n.

(** The writer mirrors the reader on every count and length the encoder
    writes for a transaction, and for a payload. *)
Definition txn_mirrored (rv : BufferReader.M Z) (wv : Z -> bytes) (t : Txn) : Prop :=
  mirrored rv wv (txInCount t)
  /\ Forall (fun i => mirrored rv wv (in_scriptLen i)) (txIn t)
  /\ mirrored rv wv (txOutCount t)
  /\ Forall (fun o => mirrored rv wv (out_scriptLen o)) (txOut t)
  /\ (flag t = 1 ->
      mirrored rv wv (Z.of_nat (length (txWitnesses t)))
      /\ mirrored rv wv 0
      /\ Forall (fun c => mirrored rv wv (blen c)) (txWitnesses t)).

Definition payload_mirrored (rv : BufferReader.M Z) (wv : Z -> bytes)
    (a : AuxPow) : Prop :=
  txn_mirrored rv wv (coinbaseTxn a)
  /\ mirrored rv wv (branchLen (coinbaseBranch a))
  /\ mirrored rv wv (branchLen (blockchainBranch a)).

(** A transaction without the witness flag whose encoding does not put the
    flag's bytes 00 01 behind the version. *)
Definition well_marked (wv : Z -> bytes) (t : Txn) : Prop :=
  flag t = 0 -> firstn 2 (txn_body wv t) <> [Byte.x00; Byte.x01].

(** ** Reference values used by the examples *)

Definition zero32 : bytes := repeat Byte.x00 32.

(** A header with the given version and bits, everything else zero. *)
Definition header_of (v b : Z) : BlockHeader :=
  MkBlockHeader v zero32 zero32 0 0 b 0 None None.

(** A coinbase transaction with no input and no output, and an empty branch. *)
Definition sample_txn : Txn := MkTxn 1 0 0 [] 0 [] [] 0.
Definition sample_branch : MerkleBranch := MkMerkleBranch 0 [] 0.

(** A payload whose parent block is a plain header. *)
Definition sample_auxpow : AuxPow :=
  MkAuxPow sample_txn zero32 sample_branch sample_branch (header_of 1 0x1e0ffff0).

(** Stand-ins for the collaborators, for the examples only: a digest that
    keeps the first 32 bytes of its input, and a payload encoder that writes
    the block hash. *)
Definition toy_digest (b : bytes) : bytes := firstn 32 (b ++ zero32).

Definition toy_payload_writer (a : AuxPow) (bw : BufferWriter.t) : result BufferWriter.t :=
  Ok (BufferWriter.write bw (blockHash a)).

(** A varint reader for the examples: Bitcoin's compact size. *)
Definition compactSize : BufferReader.M Z :=
  first <~ BufferReader.read 1 ;;
  match le_value first with
  | 0xFD => b <~ BufferReader.read 2 ;; BufferReader.ret (le_value b)
  | 0xFE => b <~ BufferReader.read 4 ;; BufferReader.ret (le_value b)
  | 0xFF =>
      b <~ BufferReader.read 8 ;;
      if le_value b <=? 2 ^ 53 then BufferReader.ret (le_value b)
      else BufferReader.lift (Err InvalidVarint)
  | n => BufferReader.ret n
  end.

(** The matching varint writer, and the payload encoder with it. *)
Definition writeCompactSize (n : Z) : bytes :=
  if n <? 0xFD then le_bytes 1 n
  else if n <? 2 ^ 16 then Byte.xfd :: le_bytes 2 n
  else if n <? 2 ^ 32 then Byte.xfe :: le_bytes 4 n
  else Byte.xff :: le_bytes 8 n.

Definition example_payload_writer : AuxPow -> BufferWriter.t -> result BufferWriter.t :=
  AuxPow_writer writeCompactSize.

(** An argument object whose supplied hash is the one the toy digest gives
    its fields, and one whose supplied hash is the empty string. *)
Definition object_with_hash (supplied : string) : FieldMap :=
  MkFieldMap (Some supplied) 1 (Buf zero32) (Buf zero32) 0 0x1e0ffff0 0 None.

Definition toy_hash : string :=
  "0000000000000000000000000000000000000000000000000000000000000001".

Definition zeros (n : nat) : bytes := repeat Byte.x00 n.

(** A header with version 1, and one with version 0x100, all else zero. *)
Definition plain_header_bytes : bytes :=
  [Byte.x01; Byte.x00; Byte.x00; Byte.x00] ++ zeros 76.

Definition flagged_header_bytes : bytes :=
  [Byte.x00; Byte.x01; Byte.x00; Byte.x00] ++ zeros 76.

(** A transaction of version 1 with no input, no output and lock time 0;
    an empty Merkle branch with side mask 0. *)
Definition empty_txn_bytes : bytes :=
  [Byte.x01; Byte.x00; Byte.x00; Byte.x00] ++ [Byte.x00] ++ [Byte.x00] ++ zeros 4.

Definition empty_branch_bytes : bytes := [Byte.x00] ++ zeros 4.

Definition payload_bytes : bytes :=
  empty_txn_bytes ++ zeros 32 ++ empty_branch_bytes ++ empty_branch_bytes
  ++ plain_header_bytes.

Definition auxpow_buffer : bytes := flagged_header_bytes ++ payload_bytes.

(** The same header with a parent block of version 0x100. *)
Definition flagged_parent_buffer : bytes :=
  flagged_header_bytes ++ empty_txn_bytes ++ zeros 32 ++ empty_branch_bytes
  ++ empty_branch_bytes ++ flagged_header_bytes.

(** A header with AuxPoW whose coinbase transaction has no input and one
    output, the input count written in three bytes, FD 00 00. *)
Definition ambiguous_txn_bytes : bytes :=
  [Byte.x01; Byte.x00; Byte.x00; Byte.x00] ++ [Byte.xfd; Byte.x00; Byte.x00]
  ++ [Byte.x01] ++ zeros 8 ++ [Byte.x00] ++ zeros 4.

Definition ambiguous_buffer : bytes :=
  flagged_header_bytes ++ ambiguous_txn_bytes ++ zeros 32 ++ empty_branch_bytes
  ++ empty_branch_bytes ++ plain_header_bytes.

(** An argument object whose [prevHash] is a string of three bytes. *)
Definition short_hash_object : FieldMap :=
  MkFieldMap None 1 (HexString "abcdef") (Buf zero32) 0 0x1e0ffff0 0 None.

(** A payload cut off inside its coinbase branch: the count says 5 hashes
    and 3 bytes follow. *)
Definition truncated_branch_buffer : bytes :=
  flagged_header_bytes ++ empty_txn_bytes ++ zeros 32 ++ [Byte.x05] ++ zeros 3.

(** * Properties *)

(** ** JavaScript's operators on 32-bit values *)

Lemma ToInt32_congr (x : Z) : (JS.ToInt32 x) mod 2 ^ 32 = x mod 2 ^ 32.
Proof.
  unfold JS.ToInt32.
  destruct (x mod 2 ^ 32 <? 2 ^ 31).
  - apply Z.mod_mod. lia.
  - replace (x mod 2 ^ 32 - 2 ^ 32) with (x mod 2 ^ 32 + (-1) * 2 ^ 32) by ring.
    rewrite Z.mod_add by lia. apply Z.mod_mod. lia.
Qed.

Lemma ToInt32_small (x : Z) : - 2 ^ 31 <= x < 2 ^ 31 -> JS.ToInt32 x = x.
Proof.
  intros H. unfold JS.ToInt32.
  destruct (Z.ltb_spec (x mod 2 ^ 32) (2 ^ 31)) as [Hlt | Hge].
  - destruct (Z.le_gt_cases 0 x) as [H0 | H0].
    + apply Z.mod_small. lia.
    + replace x with (x + 2 ^ 32 + (-1) * 2 ^ 32) in Hlt by ring.
      rewrite Z.mod_add, Z.mod_small in Hlt by lia. lia.
  - destruct (Z.le_gt_cases 0 x) as [H0 | H0].
    + rewrite Z.mod_small in Hge by lia. lia.
    + replace x with (x + 2 ^ 32 + (-1) * 2 ^ 32) at 1 by ring.
      rewrite Z.mod_add, Z.mod_small by lia. ring.
Qed.

Lemma ToUint32_small (x : Z) : 0 <= x < 2 ^ 32 -> JS.ToUint32 x = x.
Proof. intros H. unfold JS.ToUint32. apply Z.mod_small. exact H. Qed.

(** [bits & 0xffffff] keeps the low 24 bits, whatever the sign [ToInt32]
    gives the left operand. *)
Lemma and_low24 (b : Z) : JS.and b 0xffffff = b mod 2 ^ 24.
Proof.
  unfold JS.and.
  rewrite (ToInt32_small 0xffffff) by lia.
  change 0xffffff with (Z.ones 24).
  rewrite Z.land_ones by lia.
  assert (Hdiv : (2 ^ 24 | 2 ^ 32)) by (exists (2 ^ 8); reflexivity).
  rewrite <- (Z.mod_mod_divide (JS.ToInt32 b) (2 ^ 32) (2 ^ 24) Hdiv).
  rewrite ToInt32_congr.
  apply Z.mod_mod_divide. exact Hdiv.
Qed.

Lemma land_low24 (b : Z) : Z.land b 0xFFFFFF = b mod 2 ^ 24.
Proof. change 0xFFFFFF with (Z.ones 24). apply Z.land_ones. lia. Qed.

Lemma ushr24_uint32 (b : Z) :
  0 <= b < 2 ^ 32 -> JS.ushr b 24 = Z.land (Z.shiftr b 24) 0xFF.
Proof.
  intros H. unfold JS.ushr. rewrite ToUint32_small by exact H.
  change (24 mod 32) with 24.
  change 0xFF with (Z.ones 8). rewrite Z.land_ones by lia.
  rewrite Z.shiftr_div_pow2 by lia.
  symmetry. apply Z.mod_small.
  split.
  - apply Z.div_pos; lia.
  - apply Z.div_lt_upper_bound; lia.
Qed.

(** ** The doubling loop *)

Lemma target_loop_pow (fuel : nat) :
  forall mov target,
    (Z.to_nat mov <= fuel)%nat ->
    target_loop fuel mov target = target * 2 ^ Z.max 0 mov.
Proof.
  induction fuel as [| fuel IH]; intros mov target Hfuel; cbn [target_loop].
  - assert (mov <= 0) by lia.
    rewrite Z.max_l by lia. rewrite Z.pow_0_r. ring.
  - destruct (Z.ltb_spec 0 mov) as [Hpos | Hneg].
    + rewrite IH by lia.
      rewrite !Z.max_r by lia.
      replace mov with (Z.succ (mov - 1)) at 2 by lia.
      rewrite Z.pow_succ_r by lia. ring.
    + rewrite Z.max_l by lia. rewrite Z.pow_0_r. ring.
Qed.

(** The loop's result does not depend on the rounds it is given beyond the
    [mov] it needs. *)
Lemma target_loop_fuel (fuel : nat) (mov target : Z) :
  (Z.to_nat mov <= fuel)%nat ->
  target_loop fuel mov target = target_loop (Z.to_nat mov) mov target.
Proof.
  intros H. rewrite !target_loop_pow by lia. reflexivity.
Qed.

Lemma getTargetDifficulty_value (this : BlockHeader) (arg : option Z) :
  let b := JS.or_default arg (bits this) in
  getTargetDifficulty this arg
  = (b mod 2 ^ 24) * 2 ^ Z.max 0 (8 * (JS.ushr b 24 - 3)).
Proof.
  intros b. unfold getTargetDifficulty. fold b.
  rewrite target_loop_pow by lia.
  rewrite and_low24. reflexivity.
Qed.

Lemma or_default_nonzero (b own : Z) : b <> 0 -> JS.or_default (Some b) own = b.
Proof.
  intros H. unfold JS.or_default, JS.truthy.
  destruct (Z.eqb_spec b 0); [contradiction | reflexivity].
Qed.

Lemma doubling_iter (n : nat) (m : Z) : Nat.iter n (Z.mul 2) m = m * 2 ^ Z.of_nat n.
Proof.
  induction n as [| n IH].
  - cbn [Nat.iter nat_rect]. change (Z.of_nat 0) with 0. rewrite Z.pow_0_r. ring.
  - rewrite Nat2Z.inj_succ, Z.pow_succ_r by lia.
    change (Nat.iter (S n) (Z.mul 2) m) with (2 * Nat.iter n (Z.mul 2) m).
    rewrite IH. ring.
Qed.

(** C4: for a 32-bit [bits] with nonzero low 24 bits, the target is the
    mantissa [bits & 0xFFFFFF] shifted left by
    [8 * (((bits >> 24) & 0xFF) - 3)] positions, a negative count shifting
    nothing (the result is then the mantissa itself); the successive doubling
    gives the very number the shift gives. *)
Theorem getTargetDifficulty_shift (this : BlockHeader) (b : Z) :
  0 <= b < 2 ^ 32 ->
  Z.land b 0xFFFFFF <> 0 ->
  let mantissa := Z.land b 0xFFFFFF in
  let count := 8 * (Z.land (Z.shiftr b 24) 0xFF - 3) in
  getTargetDifficulty this (Some b) = Z.shiftl mantissa (Z.max 0 count)
  /\ (count < 0 -> getTargetDifficulty this (Some b) = mantissa)
  /\ getTargetDifficulty this (Some b) = Nat.iter (Z.to_nat count) (Z.mul 2) mantissa.
Proof.
  intros Hb Hm mantissa count.
  assert (Hnz : b <> 0).
  { intros ->. apply Hm. reflexivity. }
  assert (Hval : getTargetDifficulty this (Some b) = mantissa * 2 ^ Z.max 0 count).
  { rewrite getTargetDifficulty_value. cbv zeta.
    rewrite or_default_nonzero by exact Hnz.
    rewrite ushr24_uint32 by exact Hb.
    unfold mantissa, count. rewrite land_low24. reflexivity. }
  split; [| split].
  - rewrite Hval. rewrite Z.shiftl_mul_pow2 by lia. reflexivity.
  - intros Hneg. rewrite Hval. rewrite Z.max_l by lia. rewrite Z.pow_0_r. ring.
  - rewrite Hval, doubling_iter.
    replace (Z.of_nat (Z.to_nat count)) with (Z.max 0 count) by lia.
    reflexivity.
Qed.

Lemma getTargetDifficulty_shift_witness :
  getTargetDifficulty (header_of 1 0) (Some GENESIS_BITS)
  = Z.shiftl 0x0ffff0 (8 * (0x1e - 3)).
Proof.
  exact (proj1 (getTargetDifficulty_shift (header_of 1 0) GENESIS_BITS
                  ltac:(unfold GENESIS_BITS; lia)
                  ltac:(vm_compute; discriminate))).
Defined.

(** C10: an explicit argument of 0 is taken for an absent one
    ([bits = bits || this.bits]): the call returns what the call without an
    argument returns, the target of the header's own [bits], which equals
    [getTargetDifficulty(h.bits)]; with a nonzero own mantissa that is not
    the target 0 that [bits = 0] would decode to. *)
Theorem getTargetDifficulty_explicit_zero (this : BlockHeader) :
  getTargetDifficulty this (Some 0) = getTargetDifficulty this None
  /\ getTargetDifficulty this (Some 0) = getTargetDifficulty this (Some (bits this))
  /\ (Z.land (bits this) 0xFFFFFF <> 0 ->
      0 < getTargetDifficulty this (Some 0)
      /\ getTargetDifficulty (header_of (version this) 0) None = 0).
Proof.
  assert (Hown : JS.or_default (Some (bits this)) (bits this) = bits this).
  { unfold JS.or_default. destruct (JS.truthy (bits this)); reflexivity. }
  split; [reflexivity | split].
  - rewrite !getTargetDifficulty_value. cbv zeta. rewrite Hown. reflexivity.
  - intros Hm. split.
    + rewrite getTargetDifficulty_value. cbv zeta.
      change (JS.or_default (Some 0) (bits this)) with (bits this).
      rewrite land_low24 in Hm.
      assert (0 <= bits this mod 2 ^ 24) by (apply Z.mod_pos_bound; lia).
      apply Z.mul_pos_pos; [lia |].
      apply Z.pow_pos_nonneg; lia.
    + reflexivity.
Qed.

Lemma exponent_byte_nonzero (b : Z) : 0 < exponent_byte b -> b <> 0.
Proof. intros H ->. vm_compute in H. discriminate. Qed.

Lemma getTargetDifficulty_explicit_zero_witness :
  getTargetDifficulty (header_of 1 GENESIS_BITS) (Some 0)
  = getTargetDifficulty (header_of 1 GENESIS_BITS) (Some GENESIS_BITS)
  /\ 0 < getTargetDifficulty (header_of 1 GENESIS_BITS) (Some 0).
Proof.
  pose proof (getTargetDifficulty_explicit_zero (header_of 1 GENESIS_BITS))
    as (_ & Hown & Hpos).
  split; [exact Hown |].
  apply Hpos. vm_compute. discriminate.
Defined.

(** C6, as the code has it: with equal mantissas and exponent bytes [e] and
    [e + 1], the target of the larger exponent is exactly 256 times the
    other when [e] is at least 3; up to exponent byte 3 the loop shifts
    nothing and both targets are the mantissa. The first holds for the target
    of a header's own [bits] and for a [bits] passed as the argument. *)
Theorem target_exponent_step (h1 h2 this : BlockHeader) :
  0 <= bits h1 < 2 ^ 32 ->
  0 <= bits h2 < 2 ^ 32 ->
  Z.land (bits h1) 0xFFFFFF = Z.land (bits h2) 0xFFFFFF ->
  exponent_byte (bits h2) = exponent_byte (bits h1) + 1 ->
  (3 <= exponent_byte (bits h1) ->
     getTargetDifficulty h2 None = 256 * getTargetDifficulty h1 None
     /\ getTargetDifficulty this (Some (bits h2))
        = 256 * getTargetDifficulty this (Some (bits h1)))
  /\ (exponent_byte (bits h2) <= 3 ->
     getTargetDifficulty h2 None = getTargetDifficulty h1 None
     /\ getTargetDifficulty h1 None = Z.land (bits h1) 0xFFFFFF).
Proof.
  intros H1 H2 Hm He.
  rewrite !land_low24 in Hm. unfold exponent_byte in *.
  assert (V1 : getTargetDifficulty h1 None
               = (bits h1 mod 2 ^ 24)
                 * 2 ^ Z.max 0 (8 * (Z.land (Z.shiftr (bits h1) 24) 0xFF - 3))).
  { rewrite getTargetDifficulty_value. cbv zeta. simpl JS.or_default.
    rewrite ushr24_uint32 by exact H1. reflexivity. }
  assert (V2 : getTargetDifficulty h2 None
               = (bits h2 mod 2 ^ 24)
                 * 2 ^ Z.max 0 (8 * (Z.land (Z.shiftr (bits h2) 24) 0xFF - 3))).
  { rewrite getTargetDifficulty_value. cbv zeta. simpl JS.or_default.
    rewrite ushr24_uint32 by exact H2. reflexivity. }
  split.
  - intros H3.
    assert (Hstep : getTargetDifficulty h2 None = 256 * getTargetDifficulty h1 None).
    { rewrite V1, V2, He, <- Hm.
      rewrite !Z.max_r by lia.
      replace (8 * (Z.land (Z.shiftr (bits h1) 24) 0xFF + 1 - 3))
        with (8 + 8 * (Z.land (Z.shiftr (bits h1) 24) 0xFF - 3)) by ring.
      rewrite Z.pow_add_r by lia.
      change (2 ^ 8) with 256. ring. }
    split; [exact Hstep |].
    assert (N1 : bits h1 <> 0) by (apply exponent_byte_nonzero; unfold exponent_byte; lia).
    assert (N2 : bits h2 <> 0) by (apply exponent_byte_nonzero; unfold exponent_byte; lia).
    rewrite !getTargetDifficulty_value in *. cbv zeta in *.
    rewrite !or_default_nonzero by assumption.
    simpl JS.or_default in Hstep. exact Hstep.
  - intros H3.
    rewrite V1, V2, <- Hm, land_low24.
    rewrite !Z.max_l by lia. rewrite Z.pow_0_r. split; ring.
Qed.

Lemma target_exponent_step_witness :
  getTargetDifficulty (header_of 1 0x1e0ffff0) None
  = 256 * getTargetDifficulty (header_of 1 0x1d0ffff0) None.
Proof.
  exact (proj1 (proj1 (target_exponent_step (header_of 1 0x1d0ffff0)
                         (header_of 1 0x1e0ffff0) (header_of 1 0)
                         ltac:(simpl; lia) ltac:(simpl; lia)
                         ltac:(reflexivity) ltac:(reflexivity))
                  ltac:(vm_compute; discriminate))).
Defined.

(** C6 as stated fails below exponent byte 3: 0x01000001 and 0x02000001
    share the mantissa 1 and their exponent bytes are 1 and 2, yet both
    targets are 1. *)
Lemma target_exponent_step_counterexample :
  let h1 := header_of 1 0x01000001 in
  let h2 := header_of 1 0x02000001 in
  Z.land (bits h1) 0xFFFFFF = Z.land (bits h2) 0xFFFFFF
  /\ exponent_byte (bits h2) = exponent_byte (bits h1) + 1
  /\ getTargetDifficulty h1 None = 1
  /\ getTargetDifficulty h2 None = 1
  /\ getTargetDifficulty h2 None <> 256 * getTargetDifficulty h1 None.
Proof.
  cbv zeta. repeat split; try reflexivity.
  vm_compute. discriminate.
Qed.

(** ** Difficulty *)

Lemma shift_up_iter (fuel : nat) :
  forall (s : Z) (d : float),
    fuel = Z.to_nat (29 - s) ->
    shift_up fuel s d
    = (Z.max s 29, Nat.iter fuel (fun x => (x * 256)%float) d).
Proof.
  induction fuel as [| fuel IH]; intros s d Hfuel; cbn [shift_up].
  - rewrite Z.max_l by lia. reflexivity.
  - destruct (Z.ltb_spec s 29) as [Hlt | Hge]; [| lia].
    rewrite IH by lia.
    rewrite !Z.max_r by lia.
    rewrite Nat.iter_succ_r. reflexivity.
Qed.

Lemma shift_down_iter (fuel : nat) :
  forall (s : Z) (d : float),
    fuel = Z.to_nat (s - 29) ->
    shift_down fuel s d
    = (Z.min s 29, Nat.iter fuel (fun x => (x / 256)%float) d).
Proof.
  induction fuel as [| fuel IH]; intros s d Hfuel; cbn [shift_down].
  - rewrite Z.min_l by lia. reflexivity.
  - destruct (Z.ltb_spec 29 s) as [Hlt | Hge]; [| lia].
    rewrite IH by lia.
    rewrite !Z.min_r by lia.
    rewrite Nat.iter_succ_r. reflexivity.
Qed.

(** C5, as the code has it: [getDifficulty()] is exactly 1.0 when [bits] is
    0; for [bits = 0x1e0ffff0] it is exactly 0.000244140625 (2^-12); and for
    every nonzero [bits] it is 0xFFFF divided by the low 24 bits, multiplied
    by 256 once per step of the exponent byte below 29 or divided by 256 once
    per step above 29, then rounded to 19 decimal digits. *)
Theorem getDifficulty_reference (this : BlockHeader) :
  (bits this = 0 -> getDifficulty this = 1.0%float)
  /\ (bits this = 0x1e0ffff0 -> getDifficulty this = 0.000244140625%float)
  /\ (bits this <> 0 ->
      let e := JS.and (JS.shr (bits this) 24) 0xff in
      let base := (float_of_Z 0xffff / float_of_Z (JS.and (bits this) 0xffffff))%float in
      getDifficulty this
      = parseFloat_toFixed19
          (Nat.iter (Z.to_nat (e - 29)) (fun x => (x / 256)%float)
             (Nat.iter (Z.to_nat (29 - e)) (fun x => (x * 256)%float) base))).
Proof.
  split; [| split].
  - unfold getDifficulty. intros ->. reflexivity.
  - unfold getDifficulty. intros ->. vm_compute. reflexivity.
  - intros Hnz e base.
    unfold getDifficulty, JS.truthy. destruct (Z.eqb_spec (bits this) 0) as [H0 | _]; [contradiction |].
    cbn [negb]. fold e. fold base.
    rewrite (shift_up_iter _ e base eq_refl).
    destruct (Z.le_gt_cases e 29) as [Hle | Hgt].
    + rewrite Z.max_r by lia.
      rewrite (shift_down_iter _ 29 _ eq_refl).
      replace (Z.to_nat (e - 29)) with (Z.to_nat (29 - 29)) by lia.
      reflexivity.
    + rewrite Z.max_l by lia.
      rewrite (shift_down_iter _ e _ eq_refl). reflexivity.
Qed.

Lemma getDifficulty_reference_witness :
  getDifficulty (header_of 1 0) = 1.0%float
  /\ getDifficulty (header_of 1 0x1e0ffff0) = 0.000244140625%float.
Proof.
  split.
  - exact (proj1 (getDifficulty_reference (header_of 1 0)) eq_refl).
  - exact (proj1 (proj2 (getDifficulty_reference (header_of 1 0x1e0ffff0))) eq_refl).
Defined.

(** C5 as stated fails at its reference vector: for [bits = 0x1e0ffff0] the
    difficulty is 0.000244140625, below a thousandth, nowhere near 1.0. *)
Lemma getDifficulty_genesis_counterexample :
  getDifficulty (header_of 1 0x1e0ffff0) = 0.000244140625%float
  /\ (getDifficulty (header_of 1 0x1e0ffff0) <? 0.0009765625)%float = true.
Proof.
  split; vm_compute; reflexivity.
Qed.

(** ** The 80-byte encoding and the identity hash *)

Lemma le_bytes_length (n : nat) : forall z, length (le_bytes n z) = n.
Proof.
  induction n as [| n IH]; intros z; simpl; [reflexivity |].
  rewrite IH. reflexivity.
Qed.

Section Encoding.

Variable sha256sha256 : bytes -> bytes.
Variable AuxPow_toBufferWriter : AuxPow -> BufferWriter.t -> result BufferWriter.t.

(** Without the AuxPoW part the writer never consults the payload or its
    encoder. *)
Lemma toBufferWriter_false_fields
    (enc' : AuxPow -> BufferWriter.t -> result BufferWriter.t)
    (h1 h2 : BlockHeader) (bw : option BufferWriter.t) :
  same_fixed_fields h1 h2 ->
  toBufferWriter AuxPow_toBufferWriter h1 bw false = toBufferWriter enc' h2 bw false.
Proof.
  intros (Hv & Hp & Hm & Ht & Hb & Hn).
  unfold toBufferWriter. rewrite Hv, Hp, Hm, Ht, Hb, Hn.
  destruct (BufferWriter.writeInt32LE _ (version h2)) as [w1 | e]; [| reflexivity].
  cbn [bind].
  destruct (BufferWriter.writeUInt32LE _ (time h2)) as [w2 | e]; [| reflexivity].
  cbn [bind].
  destruct (BufferWriter.writeUInt32LE _ (bits h2)) as [w3 | e]; [| reflexivity].
  cbn [bind].
  destruct (BufferWriter.writeUInt32LE _ (nonce h2)) as [w4 | e]; reflexivity.
Qed.

Lemma toBuffer_false_fields
    (enc' : AuxPow -> BufferWriter.t -> result BufferWriter.t)
    (h1 h2 : BlockHeader) :
  same_fixed_fields h1 h2 ->
  toBuffer AuxPow_toBufferWriter h1 false = toBuffer enc' h2 false.
Proof.
  intros H. unfold toBuffer.
  rewrite (toBufferWriter_false_fields enc' h1 h2 None H). reflexivity.
Qed.

(** With fields in range the writer produces the six chunks. *)
Lemma toBufferWriter_fixed (h : BlockHeader) (include : bool) :
  fields_ok h ->
  (include && isAuxPow h = false)%bool ->
  toBufferWriter AuxPow_toBufferWriter h None include
  = Ok (BufferWriter.mk
          [le_bytes 4 (version h); prevHash h; merkleRoot h;
           le_bytes 4 (time h); le_bytes 4 (bits h); le_bytes 4 (nonce h)]).
Proof.
  intros (Hv & _ & _ & Ht & Hb & Hn) Hinc.
  unfold toBufferWriter, BufferWriter.writeInt32LE, BufferWriter.writeUInt32LE.
  rewrite Hv. cbn [bind]. rewrite Ht. cbn [bind]. rewrite Hb. cbn [bind].
  rewrite Hn. cbn [bind]. rewrite Hinc. reflexivity.
Qed.

Lemma toBuffer_fixed (h : BlockHeader) (include : bool) :
  fields_ok h ->
  (include && isAuxPow h = false)%bool ->
  toBuffer AuxPow_toBufferWriter h include = Ok (fixed_bytes h).
Proof.
  intros Hok Hinc. unfold toBuffer.
  rewrite (toBufferWriter_fixed h include Hok Hinc). cbn [bind].
  unfold BufferWriter.concat, fixed_bytes. cbn [BufferWriter.bufs List.concat].
  rewrite app_nil_r. reflexivity.
Qed.

Lemma fixed_bytes_length (h : BlockHeader) :
  fields_ok h -> length (fixed_bytes h) = 80%nat.
Proof.
  intros (_ & Hp & Hm & _).
  unfold fixed_bytes. rewrite !length_app, !le_bytes_length, Hp, Hm. reflexivity.
Qed.

(** C2: the identity hash is a function of the fixed fields alone. Two
    headers with the same version, prevHash, merkleRoot, time, bits and nonce
    have the same [_getHash], and the same [hash]/[id] on first access,
    whatever their AuxPoW payloads (present, absent or different) and
    whatever the payload encoder does; with fields in range the hashed input
    is the 80-byte encoding of the fixed fields. *)
Theorem hash_depends_on_fixed_fields_only
    (enc' : AuxPow -> BufferWriter.t -> result BufferWriter.t)
    (h1 h2 : BlockHeader) :
  same_fixed_fields h1 h2 ->
  _getHash sha256sha256 AuxPow_toBufferWriter h1 = _getHash sha256sha256 enc' h2
  /\ (_id h1 = None -> _id h2 = None ->
      hash_value (hash sha256sha256 AuxPow_toBufferWriter h1)
      = hash_value (hash sha256sha256 enc' h2))
  /\ (fields_ok h1 ->
      _getHash sha256sha256 AuxPow_toBufferWriter h1 = Ok (sha256sha256 (fixed_bytes h1))
      /\ length (fixed_bytes h1) = 80%nat).
Proof.
  intros Hsame.
  assert (Hget : _getHash sha256sha256 AuxPow_toBufferWriter h1
                 = _getHash sha256sha256 enc' h2).
  { unfold _getHash. rewrite (toBuffer_false_fields enc' h1 h2 Hsame). reflexivity. }
  split; [exact Hget | split].
  - intros Hid1 Hid2. unfold hash. rewrite Hid1, Hid2, Hget.
    destruct (_getHash sha256sha256 enc' h2); reflexivity.
  - intros Hok. split.
    + unfold _getHash. rewrite (toBuffer_fixed h1 false Hok eq_refl). reflexivity.
    + apply fixed_bytes_length. exact Hok.
Qed.

(** Once computed, the memoized hash is what every later access returns. *)
Lemma hash_memoized (h h' : BlockHeader) (s : string) :
  hash sha256sha256 AuxPow_toBufferWriter h = Ok (s, h') ->
  JS.truthy_string s = true ->
  hash sha256sha256 AuxPow_toBufferWriter h' = Ok (s, h').
Proof.
  unfold hash. intros H Hs.
  destruct (_id h) as [c |] eqn:Hid.
  - destruct (JS.truthy_string c) eqn:Hc.
    + injection H as -> ->. rewrite Hid, Hc. reflexivity.
    + destruct (_getHash sha256sha256 AuxPow_toBufferWriter h); [| discriminate].
      cbn [bind] in H. injection H as <- <-. cbn [_id set_id]. rewrite Hs. reflexivity.
  - destruct (_getHash sha256sha256 AuxPow_toBufferWriter h); [| discriminate].
    cbn [bind] in H. injection H as <- <-. cbn [_id set_id]. rewrite Hs. reflexivity.
Qed.

End Encoding.

Lemma hash_depends_on_fixed_fields_only_witness :
  _getHash toy_digest toy_payload_writer
    (MkBlockHeader 0x100 zero32 zero32 0 0 0x1e0ffff0 0 (Some sample_auxpow) None)
  = _getHash toy_digest toy_payload_writer
      (MkBlockHeader 0x100 zero32 zero32 0 0 0x1e0ffff0 0 None None).
Proof.
  exact (proj1 (hash_depends_on_fixed_fields_only toy_digest toy_payload_writer
                  toy_payload_writer
                  (MkBlockHeader 0x100 zero32 zero32 0 0 0x1e0ffff0 0 (Some sample_auxpow) None)
                  (MkBlockHeader 0x100 zero32 zero32 0 0 0x1e0ffff0 0 None None)
                  (conj eq_refl (conj eq_refl (conj eq_refl
                     (conj eq_refl (conj eq_refl eq_refl))))))).
Defined.

(** ** The constructor's hash check *)

Section Construction.

Variable sha256sha256 : bytes -> bytes.
Variable AuxPow_toBufferWriter : AuxPow -> BufferWriter.t -> result BufferWriter.t.
Variable readVarintNum : BufferReader.M Z.

Local Abbreviation new_header := (newBlockHeader sha256sha256 AuxPow_toBufferWriter readVarintNum).
Local Abbreviation hash_of := (hash sha256sha256 AuxPow_toBufferWriter).

Lemma truthy_string_nonempty (s : string) :
  JS.truthy_string s = true <-> s <> EmptyString.
Proof.
  destruct s; simpl; split; intros H; try reflexivity; try discriminate.
  contradiction.
Qed.

(** What the constructor does on an object, step by step. *)
Lemma newBlockHeader_object (o : FieldMap) :
  new_header (ArgObject o)
  = let this := assign_fields (_fromObject o) in
    match fm_hash o with
    | Some supplied =>
        if JS.truthy_string supplied then
          r <- hash_of this ;;
          if String.eqb (fst r) supplied then Ok (snd r) else Err StateMismatch
        else Ok this
    | None => Ok this
    end.
Proof. reflexivity. Qed.

(** C8, as the code has it ([if (info.hash)]): with a [hash] in the argument
    object, construction fails with the state-mismatch error if and only if
    the supplied hash is not empty and differs from the hash computed from
    the other fields; when it succeeds with a supplied hash that is not
    empty, the header's hash is the supplied one; an empty supplied hash is
    not checked at all. [BlockHeader.fromObject] builds the same header as
    the constructor. *)
Theorem constructor_hash_check (o : FieldMap) (supplied : string) :
  fm_hash o = Some supplied ->
  let this := assign_fields (_fromObject o) in
  (new_header (ArgObject o) = Err StateMismatch
   <-> supplied <> EmptyString
       /\ exists computed this',
            hash_of this = Ok (computed, this') /\ computed <> supplied)
  /\ (forall h, new_header (ArgObject o) = Ok h ->
      supplied <> EmptyString -> hash_of h = Ok (supplied, h))
  /\ (supplied = EmptyString -> new_header (ArgObject o) = Ok this)
  /\ fromObject sha256sha256 AuxPow_toBufferWriter readVarintNum o
     = new_header (ArgObject o).
Proof.
  intros Hh this.
  assert (Hfrom : fromObject sha256sha256 AuxPow_toBufferWriter readVarintNum o
                  = new_header (ArgObject o)).
  { unfold fromObject. rewrite !newBlockHeader_object. cbv zeta.
    destruct o as [oh ov op om ot ob on oa]. reflexivity. }
  cut ((new_header (ArgObject o) = Err StateMismatch
        <-> supplied <> EmptyString
            /\ exists computed this',
                 hash_of this = Ok (computed, this') /\ computed <> supplied)
       /\ (forall h, new_header (ArgObject o) = Ok h ->
           supplied <> EmptyString -> hash_of h = Ok (supplied, h))
       /\ (supplied = EmptyString -> new_header (ArgObject o) = Ok this)).
  { intros (A & B & C).
    split; [exact A | split; [exact B | split; [exact C | exact Hfrom]]]. }
  clear Hfrom.
  rewrite newBlockHeader_object. cbv zeta. fold this. rewrite Hh.
  destruct (JS.truthy_string supplied) eqn:Ht.
  - assert (Hne : supplied <> EmptyString) by (apply truthy_string_nonempty; exact Ht).
    destruct (hash_of this) as [[computed this'] | e] eqn:Hc; cbn [bind fst snd].
    + destruct (String.eqb_spec computed supplied) as [Heq | Hneq].
      * split; [| split].
        -- split; [discriminate |].
           intros (_ & c & t & Hc' & Hd). injection Hc' as <- <-. contradiction.
        -- intros h Hok _. injection Hok as <-. subst computed.
           apply (hash_memoized _ _ this); [exact Hc | exact Ht].
        -- intros ->. contradiction.
      * split; [| split].
        -- split; [| reflexivity].
           intros _. split; [exact Hne |]. exists computed, this'. split; [reflexivity | exact Hneq].
        -- intros h Hok. discriminate.
        -- intros ->. contradiction.
    + split; [| split].
      * split; [intros H; inversion H; subst e |].
        -- split; [exact Hne |]. exfalso.
           clear - Hc. unfold hash, _getHash, toBuffer, toBufferWriter in Hc.
           cbn [_id assign_fields] in Hc.
           unfold BufferWriter.writeInt32LE, BufferWriter.writeUInt32LE in Hc.
           repeat match type of Hc with
                  | context [if ?c then _ else _] => destruct c; cbn [bind andb] in Hc
                  end; discriminate.
        -- intros (_ & c & t & Hd & _). discriminate.
      * intros h Hok. discriminate.
      * intros ->. contradiction.
  - assert (He : supplied = EmptyString).
    { destruct supplied; [reflexivity | discriminate]. }
    split; [| split].
    + split; [discriminate |]. intros (Hne & _). contradiction.
    + intros h _ Hne. contradiction.
    + intros _. reflexivity.
Qed.

End Construction.

Lemma constructor_hash_check_witness :
  exists h,
    newBlockHeader toy_digest toy_payload_writer compactSize
      (ArgObject (object_with_hash toy_hash)) = Ok h
    /\ hash toy_digest toy_payload_writer h = Ok (toy_hash, h).
Proof.
  destruct (newBlockHeader toy_digest toy_payload_writer compactSize
              (ArgObject (object_with_hash toy_hash))) as [h | e] eqn:Hnew.
  - exists h. split; [reflexivity |].
    apply (proj1 (proj2 (constructor_hash_check toy_digest toy_payload_writer
                           compactSize (object_with_hash toy_hash) toy_hash eq_refl))).
    + exact Hnew.
    + discriminate.
  - vm_compute in Hnew. discriminate.
Defined.

(** C8 as stated fails on an empty supplied hash: whatever 32-byte digest
    the hash primitive returns, the header's hash has 64 digits and so
    differs from the supplied one, yet construction succeeds. *)
Lemma constructor_empty_hash_counterexample :
  exists o : FieldMap,
    fm_hash o = Some EmptyString
    /\ forall (sha : bytes -> bytes) (enc : AuxPow -> BufferWriter.t -> result BufferWriter.t)
              (rv : BufferReader.M Z),
         (forall b, length (sha b) = 32%nat) ->
         exists h, newBlockHeader sha enc rv (ArgObject o) = Ok h
                   /\ exists computed h', hash sha enc h = Ok (computed, h')
                                          /\ computed <> EmptyString.
Proof.
  exists (object_with_hash EmptyString). split; [reflexivity |].
  intros sha enc rv Hlen.
  eexists. split; [reflexivity |].
  eexists. eexists. split; [reflexivity |].
  match goal with |- to_hex (rev ?d) <> _ => specialize (Hlen ltac:(match d with sha ?b => exact b end));
    destruct d as [| x r] eqn:Hd end.
  - discriminate.
  - rewrite <- Hd. intros Hhex.
    assert (Hrev : rev (x :: r) <> []).
    { intros Hnil. apply (f_equal (@length byte)) in Hnil. rewrite length_rev in Hnil. discriminate. }
    rewrite Hd in Hhex.
    destruct (rev (x :: r)); [contradiction | discriminate].
Qed.

(** ** Bytes and little-endian values *)

Lemma Z_of_byte_range (b : byte) : 0 <= Z_of_byte b < 256.
Proof.
  unfold Z_of_byte. pose proof (Byte.to_N_bounded b) as H. lia.
Qed.

Lemma byte_of_Z_of_byte (b : byte) : byte_of_Z (Z_of_byte b) = b.
Proof.
  unfold byte_of_Z, Z_of_byte.
  rewrite Z.mod_small by (pose proof (Byte.to_N_bounded b); lia).
  rewrite N2Z.id, Byte.of_to_N. reflexivity.
Qed.

Lemma le_value_range (b : bytes) : 0 <= le_value b < 256 ^ blen b.
Proof.
  unfold blen. induction b as [| x r IH].
  - simpl. lia.
  - cbn [le_value length]. rewrite Nat2Z.inj_succ, Z.pow_succ_r by lia.
    pose proof (Z_of_byte_range x). lia.
Qed.

Lemma le_bytes_le_value (b : bytes) : le_bytes (length b) (le_value b) = b.
Proof.
  induction b as [| x r IH]; [reflexivity |].
  cbn [le_value length le_bytes].
  pose proof (Z_of_byte_range x) as Hx.
  f_equal.
  - unfold byte_of_Z. rewrite (Z.mul_comm 256), Z.mod_add by lia.
    apply byte_of_Z_of_byte.
  - rewrite (Z.mul_comm 256), Z.div_add by lia.
    rewrite Z.div_small by lia. exact IH.
Qed.

(** The bytes written depend on the value modulo the width only. *)
Lemma le_bytes_mod (n : nat) :
  forall z, le_bytes n (z mod 256 ^ Z.of_nat n) = le_bytes n z.
Proof.
  induction n as [| n IH]; intros z; [reflexivity |].
  cbn [le_bytes]. rewrite Nat2Z.inj_succ, Z.pow_succ_r by lia.
  assert (Hpos : 0 < 256 ^ Z.of_nat n) by (apply Z.pow_pos_nonneg; lia).
  f_equal.
  - unfold byte_of_Z. f_equal. f_equal.
    rewrite Z.mod_mod_divide; [reflexivity |].
    exists (256 ^ Z.of_nat n). ring.
  - rewrite <- IH. rewrite <- (IH (z / 256)). f_equal.
    rewrite Z.rem_mul_r by lia.
    rewrite (Z.mul_comm 256), Z.div_add by lia.
    rewrite (Z.div_small (z mod 256)) by (apply Z.mod_pos_bound; lia).
    rewrite Z.add_0_l. rewrite Z.mod_mod by lia. reflexivity.
Qed.

Lemma le_bytes_ToInt32 (z : Z) : le_bytes 4 (JS.ToInt32 z) = le_bytes 4 z.
Proof.
  rewrite <- (le_bytes_mod 4 (JS.ToInt32 z)), <- (le_bytes_mod 4 z).
  change (256 ^ Z.of_nat 4) with (2 ^ 32). rewrite ToInt32_congr. reflexivity.
Qed.

Lemma ToInt32_is_int32 (z : Z) : is_int32 (JS.ToInt32 z) = true.
Proof.
  unfold is_int32, JS.ToInt32.
  pose proof (Z.mod_pos_bound z (2 ^ 32) ltac:(lia)) as H.
  destruct (Z.ltb_spec (z mod 2 ^ 32) (2 ^ 31)); apply andb_true_intro; split;
    try apply Z.leb_le; try apply Z.ltb_lt; lia.
Qed.

Lemma le_value_is_uint32 (b : bytes) : length b = 4%nat -> is_uint32 (le_value b) = true.
Proof.
  intros H. pose proof (le_value_range b) as R. unfold blen in R. rewrite H in R.
  change (256 ^ Z.of_nat 4) with (2 ^ 32) in R.
  unfold is_uint32. apply andb_true_intro; split; [apply Z.leb_le | apply Z.ltb_lt]; lia.
Qed.

(** ** The reader *)

Lemma peek_ok (len : Z) (b : bytes) (p : Z) :
  0 <= p -> 0 <= len -> p + len <= blen b ->
  BufferReader.peek len (BufferReader.mk b p)
  = Ok (firstn (Z.to_nat len) (skipn (Z.to_nat p) b)).
Proof.
  intros Hp Hl Hfit. unfold BufferReader.peek. cbn [BufferReader.pos BufferReader.buf].
  destruct (Z.leb_spec 0 p); [| lia].
  destruct (Z.leb_spec 0 len); [| lia].
  destruct (Z.leb_spec (p + len) (blen b)); [| lia].
  reflexivity.
Qed.

Lemma read_ok (len : Z) (b : bytes) (p : Z) :
  0 <= p -> 0 <= len -> p + len <= blen b ->
  BufferReader.read len (BufferReader.mk b p)
  = Ok (firstn (Z.to_nat len) (skipn (Z.to_nat p) b), BufferReader.mk b (p + len)).
Proof.
  intros Hp Hl Hfit. unfold BufferReader.read.
  rewrite peek_ok by assumption. reflexivity.
Qed.

Lemma peek_short (len : Z) (br : BufferReader.t) :
  BufferReader.remaining br < len ->
  BufferReader.peek len br = Err TruncatedStream.
Proof.
  unfold BufferReader.remaining, BufferReader.peek. intros H.
  destruct (Z.leb_spec (BufferReader.pos br + len) (blen (BufferReader.buf br))); [lia |].
  rewrite andb_false_r. reflexivity.
Qed.

Lemma read_short (len : Z) (br : BufferReader.t) :
  BufferReader.remaining br < len ->
  BufferReader.read len br = Err TruncatedStream.
Proof.
  intros H. unfold BufferReader.read. rewrite peek_short by exact H. reflexivity.
Qed.

(** A read fails with the truncated-stream error only; when it succeeds it
    returns exactly [len] bytes and moves the cursor by [len] over the same
    buffer. *)
Lemma read_inv (len : Z) (br : BufferReader.t) :
  match BufferReader.read len br with
  | Ok (b, br') =>
      blen b = len
      /\ BufferReader.buf br' = BufferReader.buf br
      /\ BufferReader.pos br' = BufferReader.pos br + len
      /\ 0 <= BufferReader.pos br
      /\ 0 <= len <= BufferReader.remaining br
  | Err e => e = TruncatedStream
  end.
Proof.
  unfold BufferReader.read, BufferReader.peek, BufferReader.remaining.
  destruct (Z.leb_spec 0 (BufferReader.pos br)); cbn [andb]; [| reflexivity].
  destruct (Z.leb_spec 0 len); cbn [andb]; [| reflexivity].
  destruct (Z.leb_spec (BufferReader.pos br + len) (blen (BufferReader.buf br)));
    [| reflexivity].
  cbn [BufferReader.buf BufferReader.pos].
  repeat split; try lia.
  unfold blen in *. rewrite length_firstn, length_skipn. lia.
Qed.

(** A read either fails, and the goal with it, or yields its bytes and the
    moved reader. *)
Ltac read_step len br b br' H :=
  pose proof (read_inv len br) as H;
  destruct (BufferReader.read len br) as [[b br'] | ?e];
  [ | subst; reflexivity ].

(** ** Decoding: truncated input *)

Section Decoding.

Variable sha256sha256 : bytes -> bytes.
Variable AuxPow_toBufferWriter : AuxPow -> BufferWriter.t -> result BufferWriter.t.
Variable readVarintNum : BufferReader.M Z.

Local Abbreviation decode := (fromBuffer sha256sha256 AuxPow_toBufferWriter readVarintNum).
Local Abbreviation construct := (newBlockHeader sha256sha256 AuxPow_toBufferWriter readVarintNum).

(** The fixed fields need 80 bytes from the cursor on. *)
Lemma fromBufferReader_short (br : BufferReader.t) :
  BufferReader.remaining br < 80 ->
  _fromBufferReader readVarintNum br = Err TruncatedStream.
Proof.
  intros Hshort.
  unfold _fromBufferReader, BufferReader.readInt32LE, BufferReader.readUInt32LE,
    BufferReader.bindM, BufferReader.ret.
  read_step 4 br b1 br1 H1.
  read_step 32 br1 b2 br2 H2.
  read_step 32 br2 b3 br3 H3.
  read_step 4 br3 b4 br4 H4.
  read_step 4 br4 b5 br5 H5.
  read_step 4 br5 b6 br6 H6.
  exfalso. unfold BufferReader.remaining in *.
  destruct H1 as (_ & E1 & P1 & _ & _), H2 as (_ & E2 & P2 & _ & _),
    H3 as (_ & E3 & P3 & _ & _), H4 as (_ & E4 & P4 & _ & _),
    H5 as (_ & E5 & P5 & _ & _), H6 as (_ & E6 & P6 & _ & R6).
  rewrite E5, E4, E3, E2, E1 in R6. lia.
Qed.

Lemma fromBuffer_short (buf : bytes) :
  blen buf < 80 -> decode buf = Err TruncatedStream.
Proof.
  intros H. unfold fromBuffer, fromBufferReader.
  rewrite fromBufferReader_short; [reflexivity |].
  unfold BufferReader.remaining. cbn [BufferReader.buf BufferReader.pos]. lia.
Qed.

Lemma for_push_step {A : Type} (k : nat) (body : BufferReader.M A) :
  BufferReader.for_push (S k) body
  = BufferReader.bindM body (fun x =>
      BufferReader.bindM (BufferReader.for_push k body) (fun xs =>
        BufferReader.ret (x :: xs))).
Proof. reflexivity. Qed.

(** A loop of [k] reads of 32 bytes fails when fewer than [32 * k] bytes
    remain. *)
Lemma for_push_readReverse_short (k : nat) :
  forall br,
    BufferReader.remaining br < 32 * Z.of_nat (S k) ->
    BufferReader.for_push (S k) (BufferReader.readReverse 32) br = Err TruncatedStream.
Proof.
  induction k as [| k IH]; intros br Hshort; rewrite for_push_step;
    unfold BufferReader.bindM at 1; unfold BufferReader.readReverse at 1;
    unfold BufferReader.bindM at 1.
  - rewrite read_short by lia. reflexivity.
  - read_step 32 br b br1 H.
    unfold BufferReader.ret at 1.
    unfold BufferReader.bindM at 1.
    rewrite IH; [reflexivity |].
    destruct H as (_ & E & P & _ & _).
    unfold BufferReader.remaining in *. rewrite E, P. lia.
Qed.

(** The Merkle branch: when the varint count [n] of a branch asks for
    more 32-byte hashes than bytes remain behind it, the branch fails with
    the truncated-stream error. *)
Lemma merkleBranch_short (br br' : BufferReader.t) (n : Z) :
  readVarintNum br = Ok (n, br') ->
  BufferReader.remaining br' < 32 * n ->
  merkleBranch readVarintNum br = Err TruncatedStream.
Proof.
  intros Hn Hshort. unfold merkleBranch.
  unfold BufferReader.bindM at 1. rewrite Hn.
  unfold BufferReader.bindM at 1.
  destruct (Z.to_nat n) as [| k] eqn:Hk.
  - cbn [BufferReader.for_push]. unfold BufferReader.ret at 1.
    unfold BufferReader.bindM at 1. unfold BufferReader.readInt32LE.
    unfold BufferReader.bindM at 1.
    rewrite read_short by lia. reflexivity.
  - rewrite for_push_readReverse_short by lia. reflexivity.
Qed.

(** ** Decoding: the fixed fields and the AuxPoW gate *)

Lemma fromBufferReader_fixed (buf : bytes) :
  80 <= blen buf ->
  _fromBufferReader readVarintNum (BufferReader.mk buf 0)
  = match AuxPow_new readVarintNum (wire_version buf) (BufferReader.mk buf 80) with
    | Ok (a, br') => Ok (fixed_info buf a, br')
    | Err e => Err e
    end.
Proof.
  intros Hlen.
  unfold _fromBufferReader, BufferReader.readInt32LE, BufferReader.readUInt32LE,
    BufferReader.bindM, BufferReader.ret.
  rewrite (read_ok 4 buf 0) by lia.
  rewrite (read_ok 32 buf (0 + 4)) by lia.
  rewrite (read_ok 32 buf (0 + 4 + 32)) by lia.
  rewrite (read_ok 4 buf (0 + 4 + 32 + 32)) by lia.
  rewrite (read_ok 4 buf (0 + 4 + 32 + 32 + 4)) by lia.
  rewrite (read_ok 4 buf (0 + 4 + 32 + 32 + 4 + 4)) by lia.
  reflexivity.
Qed.

Lemma newBlockHeader_info (info : Info) :
  info_hash info = None ->
  construct (ArgObject (object_of_info info)) = Ok (assign_fields info).
Proof.
  intros H. rewrite newBlockHeader_object. cbv zeta.
  cbn [fm_hash object_of_info]. rewrite H. reflexivity.
Qed.

(** Decoding a buffer of at least 80 bytes: the fixed fields, then the
    payload constructor at offset 80. *)
Lemma fromBuffer_long (buf : bytes) :
  80 <= blen buf ->
  decode buf
  = match AuxPow_new readVarintNum (wire_version buf) (BufferReader.mk buf 80) with
    | Ok (a, _) => Ok (assign_fields (fixed_info buf a))
    | Err e => Err e
    end.
Proof.
  intros Hlen. unfold fromBuffer, fromBufferReader.
  rewrite fromBufferReader_fixed by exact Hlen.
  destruct (AuxPow_new _ _ _) as [[a br'] | e]; [| reflexivity].
  rewrite newBlockHeader_info by reflexivity. reflexivity.
Qed.

(** The payload constructor reads nothing for a version without the flag. *)
Lemma AuxPow_new_unflagged (v : Z) (br : BufferReader.t) :
  flagged v = false ->
  AuxPow_new readVarintNum v br = Ok (None, br).
Proof.
  intros H. unfold AuxPow_new. unfold flagged in H. rewrite H. reflexivity.
Qed.

Lemma AuxPow_new_flagged (v : Z) (br : BufferReader.t) :
  flagged v = true ->
  AuxPow_new readVarintNum v br
  = match parseAuxPoW readVarintNum any_script nested_header br with
    | Ok (a, br') => Ok (Some a, br')
    | Err e => Err e
    end.
Proof.
  intros H. unfold AuxPow_new. unfold flagged in H. rewrite H. reflexivity.
Qed.

(** With nothing left to read the parse fails at once, before it can call
    the constructor. *)
Lemma parseAuxPoW_at_end (accepts : bytes -> bool) (ctor : bytes -> result BlockHeader)
    (br : BufferReader.t) :
  BufferReader.remaining br < 4 ->
  parseAuxPoW readVarintNum accepts ctor br = Err TruncatedStream.
Proof.
  intros H. unfold parseAuxPoW, getTxn, BufferReader.readInt32LE.
  unfold BufferReader.bindM. rewrite read_short by exact H. reflexivity.
Qed.

(** *** The parent block *)

(** The nested header of 80 bytes or more is the header of their fixed
    fields, with no payload. *)
Lemma nested_header_ok (b : bytes) :
  80 <= blen b -> nested_header b = Ok (assign_fields (fixed_info b None)).
Proof.
  intros Hlen.
  unfold nested_header, BufferReader.readInt32LE, BufferReader.readUInt32LE,
    BufferReader.bindM, BufferReader.ret.
  rewrite (read_ok 4 b 0) by lia.
  rewrite (read_ok 32 b (0 + 4)) by lia.
  rewrite (read_ok 32 b (0 + 4 + 32)) by lia.
  rewrite (read_ok 4 b (0 + 4 + 32 + 32)) by lia.
  rewrite (read_ok 4 b (0 + 4 + 32 + 32 + 4)) by lia.
  rewrite (read_ok 4 b (0 + 4 + 32 + 32 + 4 + 4)) by lia.
  reflexivity.
Qed.

(** Constructing a header from 80 bytes alone: with the flag the payload
    parse runs on an exhausted reader, which fails; without it the header is
    that of the fixed fields. *)
Lemma newBlockHeader_parent (b : bytes) :
  blen b = 80 ->
  construct (ArgBuffer b)
  = if flagged (wire_version b) then Err TruncatedStream
    else Ok (assign_fields (fixed_info b None)).
Proof.
  intros Hlen. unfold newBlockHeader. cbn [_from].
  rewrite fromBufferReader_fixed by lia.
  destruct (flagged (wire_version b)) eqn:Hflag.
  - rewrite AuxPow_new_flagged by exact Hflag.
    rewrite parseAuxPoW_at_end; [reflexivity |].
    unfold BufferReader.remaining. cbn [BufferReader.buf BufferReader.pos]. lia.
  - rewrite AuxPow_new_unflagged by exact Hflag. reflexivity.
Qed.

(** *** What a decoded header looks like *)

Lemma fields_ok_fixed (buf : bytes) (a : option AuxPow) :
  80 <= blen buf -> fields_ok (assign_fields (fixed_info buf a)).
Proof.
  intros Hlen. unfold blen in Hlen.
  unfold fields_ok, assign_fields, fixed_info, wire_version.
  cbn [version prevHash merkleRoot time bits nonce info_version info_prevHash
       info_merkleRoot info_time info_bits info_nonce].
  repeat split.
  - apply ToInt32_is_int32.
  - rewrite length_firstn, length_skipn. lia.
  - rewrite length_firstn, length_skipn. lia.
  - apply le_value_is_uint32. rewrite length_firstn, length_skipn. lia.
  - apply le_value_is_uint32. rewrite length_firstn, length_skipn. lia.
  - apply le_value_is_uint32. rewrite length_firstn, length_skipn. lia.
Qed.

Lemma isAuxPow_assign (buf : bytes) (a : option AuxPow) :
  isAuxPow (assign_fields (fixed_info buf a)) = flagged (wire_version buf).
Proof. reflexivity. Qed.

(** A successful parse got its parent block from the constructor, on 80
    bytes. *)
Lemma parseAuxPoW_parent (accepts : bytes -> bool) (ctor : bytes -> result BlockHeader)
    (br br' : BufferReader.t) (a : AuxPow) :
  parseAuxPoW readVarintNum accepts ctor br = Ok (a, br') ->
  exists pb, blen pb = 80 /\ ctor pb = Ok (parentBlock a).
Proof.
  unfold parseAuxPoW. unfold BufferReader.bindM.
  destruct (getTxn readVarintNum accepts br) as [[tx br1] | e]; [| discriminate].
  destruct (BufferReader.read 32 br1) as [[bh br2] | e]; [| discriminate].
  destruct (merkleBranch readVarintNum br2) as [[cb br3] | e]; [| discriminate].
  destruct (merkleBranch readVarintNum br3) as [[bb br4] | e]; [| discriminate].
  pose proof (read_inv 80 br4) as H80.
  destruct (BufferReader.read 80 br4) as [[pb br5] | e]; [| discriminate].
  destruct H80 as (Hlen & _).
  unfold BufferReader.lift, BufferReader.ret.
  destruct (ctor pb) as [parent |] eqn:Hctor; [| discriminate].
  intros H. injection H as <- _. exists pb. split; [exact Hlen | exact Hctor].
Qed.

(** Every header the decoder returns has the decoded shape. *)
Lemma fromBuffer_decoded_shape (buf : bytes) (h : BlockHeader) :
  decode buf = Ok h -> decoded_shape h.
Proof.
  intros Hdec.
  destruct (Z.lt_ge_cases (blen buf) 80) as [Hshort | Hlong].
  { rewrite fromBuffer_short in Hdec by exact Hshort. discriminate. }
  rewrite fromBuffer_long in Hdec by lia.
  destruct (flagged (wire_version buf)) eqn:Hflag.
  - rewrite AuxPow_new_flagged in Hdec by exact Hflag.
    destruct (parseAuxPoW _ _ _) as [[a br'] | e] eqn:Hparse; [| discriminate].
    injection Hdec as <-.
    split; [apply fields_ok_fixed; lia |].
    intros _. exists a. split; [reflexivity |].
    destruct (parseAuxPoW_parent _ _ _ _ _ Hparse) as (pb & Hlen & Hctor).
    rewrite nested_header_ok in Hctor by lia.
    injection Hctor as <-.
    split; [apply fields_ok_fixed; lia | reflexivity].
  - rewrite AuxPow_new_unflagged in Hdec by exact Hflag.
    injection Hdec as <-.
    split; [apply fields_ok_fixed; lia |].
    rewrite isAuxPow_assign, Hflag. discriminate.
Qed.

(** *** Truncated input *)

(** The payload's decoder, at work behind the fixed fields. *)
Local Abbreviation payload_parse := (parseAuxPoW readVarintNum any_script nested_header).

(** A flagged header whose payload parse fails does not decode, and fails
    with the parse's error. *)
Lemma fromBuffer_parse_error (buf : bytes) (e : Error) :
  80 <= blen buf ->
  flagged (wire_version buf) = true ->
  payload_parse (BufferReader.mk buf 80) = Err e ->
  decode buf = Err e.
Proof.
  intros Hlen Hflag Hparse.
  rewrite fromBuffer_long by exact Hlen.
  rewrite AuxPow_new_flagged by exact Hflag.
  rewrite Hparse. reflexivity.
Qed.

(** C9: a buffer shorter than 80 bytes does not decode, it fails with the
    truncated-stream error; a Merkle branch whose varint count [n] asks for
    more 32-byte hashes than bytes remain fails the same way, and so does the
    decoding of a header whose payload holds such a branch, be it the
    coinbase branch or the blockchain branch. *)
Theorem truncated_input_fails :
  (forall buf, blen buf < 80 -> decode buf = Err TruncatedStream)
  /\ (forall br br' n,
        readVarintNum br = Ok (n, br') ->
        BufferReader.remaining br' < 32 * n ->
        merkleBranch readVarintNum br = Err TruncatedStream)
  /\ (forall buf tx br1 bh br2 n br3,
        80 <= blen buf ->
        flagged (wire_version buf) = true ->
        getTxn readVarintNum any_script (BufferReader.mk buf 80) = Ok (tx, br1) ->
        BufferReader.read 32 br1 = Ok (bh, br2) ->
        readVarintNum br2 = Ok (n, br3) ->
        BufferReader.remaining br3 < 32 * n ->
        decode buf = Err TruncatedStream)
  /\ (forall buf tx br1 bh br2 cb br3 n br4,
        80 <= blen buf ->
        flagged (wire_version buf) = true ->
        getTxn readVarintNum any_script (BufferReader.mk buf 80) = Ok (tx, br1) ->
        BufferReader.read 32 br1 = Ok (bh, br2) ->
        merkleBranch readVarintNum br2 = Ok (cb, br3) ->
        readVarintNum br3 = Ok (n, br4) ->
        BufferReader.remaining br4 < 32 * n ->
        decode buf = Err TruncatedStream).
Proof.
  split; [exact fromBuffer_short |].
  split; [exact merkleBranch_short |].
  split.
  - intros buf tx br1 bh br2 n br3 Hlen Hflag Htx Hbh Hn Hshort.
    apply fromBuffer_parse_error; [exact Hlen | exact Hflag |].
    unfold parseAuxPoW. unfold BufferReader.bindM at 1. rewrite Htx.
    unfold BufferReader.bindM at 1. rewrite Hbh.
    unfold BufferReader.bindM at 1.
    rewrite (merkleBranch_short br2 br3 n Hn Hshort). reflexivity.
  - intros buf tx br1 bh br2 cb br3 n br4 Hlen Hflag Htx Hbh Hcb Hn Hshort.
    apply fromBuffer_parse_error; [exact Hlen | exact Hflag |].
    unfold parseAuxPoW. unfold BufferReader.bindM at 1. rewrite Htx.
    unfold BufferReader.bindM at 1. rewrite Hbh.
    unfold BufferReader.bindM at 1. rewrite Hcb.
    unfold BufferReader.bindM at 1.
    rewrite (merkleBranch_short br3 br4 n Hn Hshort). reflexivity.
Qed.

(** *** The AuxPoW flag *)

(** C7: the [auxpow] getter of a header without the flag returns null
    whatever the header holds; a buffer whose version lacks bit 8 decodes from
    its first 80 bytes alone, the reader left at offset 80 and the trailing
    bytes unread, and the method [_parseAuxPoW] returns such a header at
    once, reading nothing; a buffer whose version has bit 8 set decodes only
    when the payload parse succeeds on what follows the 80 bytes, and then
    holds that payload, and the method fails where its parse fails; so a
    header decoded from a buffer has an [auxpow] exactly when its flag is
    set. *)
Theorem auxpow_flag_gating :
  (forall h, isAuxPow h = false -> auxpow h = None)
  /\ (forall buf,
        80 <= blen buf ->
        flagged (wire_version buf) = false ->
        fromBufferReader sha256sha256 AuxPow_toBufferWriter readVarintNum
          (BufferReader.mk buf 0)
        = Ok (assign_fields (fixed_info buf None), BufferReader.mk buf 80)
        /\ decode buf = decode (firstn 80 buf))
  /\ (forall accepts ctor this br,
        isAuxPow this = false ->
        _parseAuxPoW readVarintNum accepts ctor this br = Ok (this, br))
  /\ (forall buf h,
        flagged (wire_version buf) = true ->
        decode buf = Ok h ->
        exists a br',
          payload_parse (BufferReader.mk buf 80) = Ok (a, br')
          /\ auxpow h = Some a)
  /\ (forall buf e,
        80 <= blen buf ->
        flagged (wire_version buf) = true ->
        payload_parse (BufferReader.mk buf 80) = Err e ->
        decode buf = Err e)
  /\ (forall accepts ctor this br e,
        isAuxPow this = true ->
        parseAuxPoW readVarintNum accepts ctor br = Err e ->
        _parseAuxPoW readVarintNum accepts ctor this br = Err e)
  /\ (forall buf h, decode buf = Ok h -> (auxpow h <> None <-> isAuxPow h = true)).
Proof.
  split; [| split; [| split; [| split; [| split; [| split]]]]].
  - intros h Hflag. unfold auxpow. rewrite Hflag. reflexivity.
  - intros buf Hlen Hflag. split.
    + unfold fromBufferReader.
      rewrite fromBufferReader_fixed by exact Hlen.
      rewrite AuxPow_new_unflagged by exact Hflag.
      rewrite newBlockHeader_info by reflexivity. reflexivity.
    + assert (Hlen' : 80 <= blen (firstn 80 buf)).
      { unfold blen in *. rewrite length_firstn. lia. }
      assert (Hv : wire_version (firstn 80 buf) = wire_version buf).
      { unfold wire_version. rewrite firstn_firstn. reflexivity. }
      rewrite !fromBuffer_long by assumption.
      rewrite Hv. rewrite !AuxPow_new_unflagged by exact Hflag.
      unfold fixed_info. rewrite Hv.
      rewrite !skipn_firstn_comm, !firstn_firstn. reflexivity.
  - intros accepts ctor this br Hflag. unfold _parseAuxPoW.
    fold (isAuxPow this). rewrite Hflag. reflexivity.
  - intros buf h Hflag Hdec.
    destruct (Z.lt_ge_cases (blen buf) 80) as [Hshort | Hlong].
    { rewrite fromBuffer_short in Hdec by exact Hshort. discriminate. }
    rewrite fromBuffer_long in Hdec by lia.
    rewrite AuxPow_new_flagged in Hdec by exact Hflag.
    destruct (parseAuxPoW _ _ _ _) as [[a br'] | e]; [| discriminate].
    injection Hdec as <-. exists a, br'. split; [reflexivity |].
    unfold auxpow. rewrite isAuxPow_assign, Hflag. reflexivity.
  - exact fromBuffer_parse_error.
  - intros accepts ctor this br e Hflag Hparse. unfold _parseAuxPoW.
    fold (isAuxPow this). rewrite Hflag. cbn [negb].
    unfold BufferReader.bindM. rewrite Hparse. reflexivity.
  - intros buf h Hdec. split.
    + unfold auxpow. destruct (isAuxPow h); [reflexivity | contradiction].
    + intros Hflag.
      destruct (fromBuffer_decoded_shape buf h Hdec) as (_ & Haux).
      destruct (Haux Hflag) as (a & Ha & _).
      unfold auxpow. rewrite Hflag, Ha. discriminate.
Qed.

End Decoding.

Lemma truncated_input_fails_witness :
  fromBuffer toy_digest toy_payload_writer compactSize (zeros 79) = Err TruncatedStream
  /\ fromBuffer toy_digest toy_payload_writer compactSize truncated_branch_buffer
     = Err TruncatedStream.
Proof.
  split.
  - apply (proj1 (truncated_input_fails toy_digest toy_payload_writer compactSize)).
    reflexivity.
  - eapply (proj1 (proj2 (proj2 (truncated_input_fails toy_digest toy_payload_writer
                                   compactSize)))).
    + vm_compute. discriminate.
    + reflexivity.
    + vm_compute. reflexivity.
    + vm_compute. reflexivity.
    + vm_compute. reflexivity.
    + reflexivity.
Defined.

Lemma auxpow_flag_gating_witness :
  auxpow (MkBlockHeader 1 zero32 zero32 0 0 0 0 (Some sample_auxpow) None) = None
  /\ fromBuffer toy_digest toy_payload_writer compactSize
       (plain_header_bytes ++ [Byte.xff; Byte.xff])
     = fromBuffer toy_digest toy_payload_writer compactSize
         (firstn 80 (plain_header_bytes ++ [Byte.xff; Byte.xff]))
  /\ fromBuffer toy_digest toy_payload_writer compactSize flagged_header_bytes
     = Err TruncatedStream.
Proof.
  pose proof (auxpow_flag_gating toy_digest toy_payload_writer compactSize)
    as (Hget & Hplain & _ & _ & Hfail & _).
  split; [| split].
  - apply Hget. reflexivity.
  - apply Hplain; [vm_compute; discriminate | reflexivity].
  - apply Hfail; [vm_compute; discriminate | reflexivity | vm_compute; reflexivity].
Defined.

(** C7, as stated, fails for a header built from a field map: with version
    0x100 and no payload in the map the header has bit 8 set and no
    [auxpow]. *)
Lemma auxpow_presence_counterexample :
  exists h,
    newBlockHeader toy_digest toy_payload_writer compactSize
      (ArgObject (MkFieldMap None 0x100 (Buf zero32) (Buf zero32) 0 0x1e0ffff0 0 None))
    = Ok h
    /\ ~ (auxpow h <> None <-> isAuxPow h = true).
Proof.
  eexists. split; [reflexivity |].
  intros [_ H]. apply H; reflexivity.
Qed.

(** ** Proof of work *)

Section ProofOfWork.

Variable sha256sha256 : bytes -> bytes.
Variable scrypt : bytes -> bytes.
Variable AuxPow_toBufferWriter : AuxPow -> BufferWriter.t -> result BufferWriter.t.
Variable readVarintNum : BufferReader.M Z.

Lemma getTargetDifficulty_own_bits (h : BlockHeader) :
  getTargetDifficulty h None = getTargetDifficulty h (Some (bits h)).
Proof.
  rewrite !getTargetDifficulty_value. cbv zeta.
  assert (Hown : JS.or_default (Some (bits h)) (bits h) = bits h).
  { unfold JS.or_default. destruct (JS.truthy (bits h)); reflexivity. }
  rewrite Hown. reflexivity.
Qed.

(** [if (pow.cmp(target) > 0) return false; return true;] is [pow <= target]. *)
Lemma cmp_gt_false (pow target : Z) :
  (if pow >? target then Ok false else Ok true) = Ok (pow <=? target).
Proof.
  rewrite Z.gtb_ltb, Z.leb_antisym. destruct (target <? pow); reflexivity.
Qed.

(** What [validProofOfWork] computes on a header of the decoded shape: the
    comparison, on the 80 bytes of the header it hashes; or, where that
    header is a parent block whose own version has bit 8 set, a TypeError,
    since [toBuffer()] then reaches for the payload the parent does not
    hold. *)
Lemma validProofOfWork_shape (h : BlockHeader) :
  decoded_shape h ->
  exists subject : BlockHeader,
    pow_subject h = Some subject
    /\ toBuffer AuxPow_toBufferWriter subject false = Ok (fixed_bytes subject)
    /\ length (fixed_bytes subject) = 80%nat
    /\ validProofOfWork scrypt AuxPow_toBufferWriter h
       = if isAuxPow h && isAuxPow subject then Err TypeError
         else Ok (le_value (scrypt (fixed_bytes subject))
                  <=? getTargetDifficulty h (Some (bits h))).
Proof.
  intros (Hok & Haux).
  unfold pow_subject, validProofOfWork, auxpow.
  destruct (isAuxPow h) eqn:Hflag.
  - destruct (Haux eq_refl) as (a & Ha & Hpok & Hpnone).
    rewrite Ha. cbn [option_map andb].
    exists (parentBlock a).
    split; [reflexivity |].
    split; [apply toBuffer_fixed; [exact Hpok | reflexivity] |].
    split; [apply fixed_bytes_length; exact Hpok |].
    destruct (isAuxPow (parentBlock a)) eqn:Hpflag.
    + destruct Hpok as (Hv & _ & _ & Ht & Hb & Hn).
      unfold toBuffer, toBufferWriter, BufferWriter.writeInt32LE,
        BufferWriter.writeUInt32LE.
      rewrite Hv. cbn [bind]. rewrite Ht. cbn [bind]. rewrite Hb. cbn [bind].
      rewrite Hn. cbn [bind andb]. unfold auxpow. rewrite Hpflag, Hpnone.
      reflexivity.
    + rewrite (toBuffer_fixed AuxPow_toBufferWriter (parentBlock a) true Hpok)
        by (rewrite Hpflag; reflexivity).
      cbn [bind]. unfold BN_of_digest.
      rewrite cmp_gt_false, getTargetDifficulty_own_bits. reflexivity.
  - exists h. cbn [andb].
    split; [reflexivity |].
    split; [apply toBuffer_fixed; [exact Hok | reflexivity] |].
    split; [apply fixed_bytes_length; exact Hok |].
    rewrite (toBuffer_fixed AuxPow_toBufferWriter h true Hok)
      by (rewrite Hflag; reflexivity).
    cbn [bind]. unfold BN_of_digest.
    rewrite cmp_gt_false, getTargetDifficulty_own_bits. reflexivity.
Qed.

(** C1: for a decoded header [h], [validProofOfWork] takes the parent block
    [h.auxpow.parentBlock] when [h] has AuxPoW and [h] itself otherwise; the
    80-byte encoding of that header is hashed with scrypt, the digest read as
    a little-endian unsigned integer, and the result is true exactly when
    that integer is at most the target [getTargetDifficulty(h.bits)] --
    except for a parent block whose own version has bit 8 set: the parent is
    encoded by [toBuffer()], which then reaches for a payload the parent does
    not hold, and the call throws a TypeError where the claim promises the
    comparison. *)
Theorem validProofOfWork_spec (buf : bytes) (h : BlockHeader) :
  fromBuffer sha256sha256 AuxPow_toBufferWriter readVarintNum buf = Ok h ->
  exists subject : BlockHeader,
    pow_subject h = Some subject
    /\ toBuffer AuxPow_toBufferWriter subject false = Ok (fixed_bytes subject)
    /\ length (fixed_bytes subject) = 80%nat
    /\ validProofOfWork scrypt AuxPow_toBufferWriter h
       = if isAuxPow h && isAuxPow subject then Err TypeError
         else Ok (le_value (scrypt (fixed_bytes subject))
                  <=? getTargetDifficulty h (Some (bits h))).
Proof.
  intros Hdec. apply validProofOfWork_shape.
  exact (fromBuffer_decoded_shape _ _ _ buf h Hdec).
Qed.

End ProofOfWork.

(** The failing input of C1: a header with AuxPoW whose parent block has
    version 0x100; it decodes, and [validProofOfWork] throws. *)
Lemma validProofOfWork_spec_witness :
  exists h a,
    fromBuffer toy_digest example_payload_writer compactSize flagged_parent_buffer = Ok h
    /\ auxpow h = Some a
    /\ version (parentBlock a) = 0x100
    /\ validProofOfWork toy_digest example_payload_writer h = Err TypeError.
Proof.
  destruct (fromBuffer toy_digest example_payload_writer compactSize flagged_parent_buffer)
    as [h | e] eqn:Hdec; [| vm_compute in Hdec; discriminate].
  destruct (validProofOfWork_spec toy_digest toy_digest example_payload_writer
              compactSize flagged_parent_buffer h Hdec)
    as (subject & Hsub & _ & _ & Hpow).
  vm_compute in Hdec. injection Hdec as <-.
  vm_compute in Hsub. injection Hsub as <-.
  eexists _, _. split; [reflexivity | split; [reflexivity | split; [reflexivity |]]].
  exact Hpow.
Defined.

(** ** Encoding and decoding back *)

Lemma firstn_add_skipn {A : Type} (n m : nat) :
  forall l : list A, firstn (n + m) l = firstn n l ++ firstn m (skipn n l).
Proof.
  induction n as [| n IH]; intros l; [reflexivity |].
  destruct l as [| x l]; cbn [Nat.add firstn skipn app].
  - rewrite firstn_nil. reflexivity.
  - rewrite IH. reflexivity.
Qed.

Lemma firstn_80_split (buf : bytes) :
  firstn 80 buf
  = firstn 4 buf ++ firstn 32 (skipn 4 buf) ++ firstn 32 (skipn 36 buf)
    ++ firstn 4 (skipn 68 buf) ++ firstn 4 (skipn 72 buf) ++ firstn 4 (skipn 76 buf).
Proof.
  change 80%nat with (4 + (32 + (32 + (4 + (4 + 4)))))%nat.
  rewrite !firstn_add_skipn, !skipn_skipn. reflexivity.
Qed.

(** Encoding the fixed fields of a decoded header gives back the buffer's
    first 80 bytes. *)
Lemma fixed_bytes_decoded (buf : bytes) (a : option AuxPow) :
  80 <= blen buf ->
  fixed_bytes (assign_fields (fixed_info buf a)) = firstn 80 buf.
Proof.
  intros Hlen. unfold blen in Hlen.
  assert (L : forall k, (k + 4 <= 80)%nat -> length (firstn 4 (skipn k buf)) = 4%nat).
  { intros k Hk. rewrite length_firstn, length_skipn. lia. }
  rewrite firstn_80_split.
  unfold fixed_bytes, assign_fields, fixed_info, wire_version.
  cbn [version prevHash merkleRoot time bits nonce info_version info_prevHash
       info_merkleRoot info_time info_bits info_nonce].
  assert (R : forall b : bytes, length b = 4%nat -> le_bytes 4 (le_value b) = b).
  { intros b Hb. rewrite <- Hb at 1. apply le_bytes_le_value. }
  rewrite le_bytes_ToInt32.
  rewrite (R (firstn 4 buf)) by (apply (L 0%nat); lia).
  rewrite (R (firstn 4 (skipn 68 buf))) by (apply L; lia).
  rewrite (R (firstn 4 (skipn 72 buf))) by (apply L; lia).
  rewrite (R (firstn 4 (skipn 76 buf))) by (apply L; lia).
  reflexivity.
Qed.

(** The decoded fields depend on the first 80 bytes only. *)
Lemma fixed_info_prefix (buf : bytes) (a : option AuxPow) :
  fixed_info (firstn 80 buf) a = fixed_info buf a.
Proof.
  unfold fixed_info, wire_version.
  rewrite !skipn_firstn_comm, !firstn_firstn. reflexivity.
Qed.

Section Roundtrip.

Variable sha256sha256 : bytes -> bytes.
Variable AuxPow_toBufferWriter : AuxPow -> BufferWriter.t -> result BufferWriter.t.
Variable readVarintNum : BufferReader.M Z.

Local Abbreviation decode := (fromBuffer sha256sha256 AuxPow_toBufferWriter readVarintNum).
Local Abbreviation encode := (toBuffer AuxPow_toBufferWriter).

(** With the payload included, a flagged header's encoding is its fixed
    chunks handed to the payload encoder. *)
Lemma toBuffer_payload (h : BlockHeader) (a : AuxPow) :
  fields_ok h ->
  isAuxPow h = true ->
  _auxpow h = Some a ->
  encode h true
  = (bw <- AuxPow_toBufferWriter a (fixed_chunks h) ;; Ok (BufferWriter.concat bw)).
Proof.
  intros (Hv & _ & _ & Ht & Hb & Hn) Hflag Ha.
  unfold toBuffer, toBufferWriter, BufferWriter.writeInt32LE, BufferWriter.writeUInt32LE.
  rewrite Hv. cbn [bind]. rewrite Ht. cbn [bind]. rewrite Hb. cbn [bind].
  rewrite Hn. cbn [bind]. unfold auxpow. rewrite Hflag, Ha. reflexivity.
Qed.

(** A header without the flag decodes from its first 80 bytes. *)
Lemma fromBuffer_unflagged (buf : bytes) :
  80 <= blen buf ->
  flagged (wire_version buf) = false ->
  decode buf = Ok (assign_fields (fixed_info buf None)).
Proof.
  intros Hlen Hflag.
  rewrite fromBuffer_long by exact Hlen.
  rewrite AuxPow_new_unflagged by exact Hflag. reflexivity.
Qed.

Lemma firstn_80_length (buf : bytes) : 80 <= blen buf -> length (firstn 80 buf) = 80%nat.
Proof. unfold blen. intros H. rewrite length_firstn. lia. Qed.

End Roundtrip.

(** * Further properties of the header *)

(** ** The AuxPoW flag is bit 8 of the version *)

Lemma land_256_bit8 (x : Z) : Z.land x 256 = if Z.testbit x 8 then 256 else 0.
Proof.
  apply Z.bits_inj'. intros n Hn.
  rewrite Z.land_spec.
  change 256 with (2 ^ 8) at 1. rewrite Z.pow2_bits_eqb by lia.
  destruct (Z.eqb_spec 8 n) as [<- | Hne].
  - rewrite andb_true_r.
    destruct (Z.testbit x 8).
    + change 256 with (2 ^ 8). rewrite Z.pow2_bits_eqb by lia. reflexivity.
    + rewrite Z.bits_0. reflexivity.
  - rewrite andb_false_r.
    destruct (Z.testbit x 8).
    + change 256 with (2 ^ 8). rewrite Z.pow2_bits_eqb by lia.
      symmetry. apply Z.eqb_neq. exact Hne.
    + rewrite Z.bits_0. reflexivity.
Qed.

Lemma ToInt32_bit8 (v : Z) : Z.testbit (JS.ToInt32 v) 8 = Z.testbit v 8.
Proof.
  rewrite <- (Z.mod_pow2_bits_low (JS.ToInt32 v) 32 8) by lia.
  rewrite ToInt32_congr.
  apply Z.mod_pow2_bits_low. lia.
Qed.

(** [isAuxPow()] is bit 8 of the version in two's complement, for every
    integer version, negative ones and ones beyond 32 bits included; the
    other bits do not matter. *)
Theorem isAuxPow_is_bit8 (h : BlockHeader) :
  isAuxPow h = Z.testbit (version h) 8.
Proof.
  unfold isAuxPow, JS.and.
  change (JS.ToInt32 (JS.shl 1 8)) with 256.
  rewrite land_256_bit8, ToInt32_bit8.
  destruct (Z.testbit (version h) 8); reflexivity.
Qed.

(** ** The target is never negative *)

(** The target is the low 24 bits of the effective [bits] times a power of
    two: it is never negative (bit 23, the sign of Bitcoin's compact form,
    counts as magnitude), never below the mantissa, and zero exactly when the
    mantissa is zero. *)
Theorem getTargetDifficulty_nonnegative (this : BlockHeader) (arg : option Z) :
  let mantissa := Z.land (JS.or_default arg (bits this)) 0xFFFFFF in
  0 <= mantissa <= getTargetDifficulty this arg
  /\ (getTargetDifficulty this arg = 0 <-> mantissa = 0).
Proof.
  intros mantissa. unfold mantissa.
  rewrite getTargetDifficulty_value. cbv zeta. rewrite land_low24.
  set (m := JS.or_default arg (bits this) mod 2 ^ 24).
  set (k := Z.max 0 (8 * (JS.ushr (JS.or_default arg (bits this)) 24 - 3))).
  assert (Hm : 0 <= m) by (apply Z.mod_pos_bound; lia).
  assert (Hp : 1 <= 2 ^ k).
  { assert (0 < 2 ^ k) by (apply Z.pow_pos_nonneg; lia). lia. }
  split; [nia |].
  split; intros H; nia.
Qed.

(** ** A zero mantissa gives an infinite difficulty *)

Lemma iter_mul_infinity (n : nat) :
  Nat.iter n (fun x => (x * 256)%float) infinity = infinity.
Proof.
  induction n as [| n IH]; [reflexivity |].
  cbn [Nat.iter nat_rect]. fold (Nat.iter n (fun x => (x * 256)%float) infinity).
  rewrite IH. reflexivity.
Qed.

Lemma iter_div_infinity (n : nat) :
  Nat.iter n (fun x => (x / 256)%float) infinity = infinity.
Proof.
  induction n as [| n IH]; [reflexivity |].
  cbn [Nat.iter nat_rect]. fold (Nat.iter n (fun x => (x / 256)%float) infinity).
  rewrite IH. reflexivity.
Qed.

(** [getDifficulty()] divides by the mantissa without a test: for a nonzero
    [bits] whose low 24 bits are all zero the quotient is [Infinity], the
    scaling and the rounding leave it so, and [Infinity] is returned. *)
Theorem getDifficulty_zero_mantissa (h : BlockHeader) :
  bits h <> 0 ->
  JS.and (bits h) 0xffffff = 0 ->
  getDifficulty h = infinity.
Proof.
  intros Hnz Hm.
  unfold getDifficulty, JS.truthy.
  destruct (Z.eqb_spec (bits h) 0) as [H0 | _]; [contradiction |].
  cbn [negb]. rewrite Hm.
  change (float_of_Z 65535 / float_of_Z 0)%float with infinity.
  rewrite (shift_up_iter _ _ infinity eq_refl), iter_mul_infinity.
  rewrite (shift_down_iter _ _ infinity eq_refl), iter_div_infinity.
  reflexivity.
Qed.

Lemma getDifficulty_zero_mantissa_witness :
  getDifficulty (header_of 1 0x1d000000) = infinity.
Proof.
  apply getDifficulty_zero_mantissa; [discriminate | reflexivity].
Defined.

(** ** The timestamp test *)

(** [validTimestamp()] accepts a timestamp exactly up to two hours past the
    clock; so the latest accepted time is [currentTime + 7200], and a header
    accepted at one clock reading is accepted at every later one and stays
    accepted when its time is moved back. *)
Theorem validTimestamp_window (h h' : BlockHeader) (now now' : Z) :
  (validTimestamp h now = true <-> time h <= now + 7200)
  /\ (validTimestamp h now = true -> now <= now' -> time h' <= time h ->
      validTimestamp h' now' = true).
Proof.
  assert (W : forall x n, validTimestamp x n = true <-> time x <= n + 7200).
  { intros x n. unfold validTimestamp. change MAX_TIME_OFFSET with 7200.
    rewrite Z.gtb_ltb.
    destruct (Z.ltb_spec (n + 7200) (time x)); split; intros; try lia;
      try reflexivity; try discriminate. }
  split; [apply W |].
  intros Hv Hn Ht. apply W. apply W in Hv. lia.
Qed.

Lemma validTimestamp_window_witness :
  validTimestamp (MkBlockHeader 1 zero32 zero32 7300 7300 0 0 None None) 100 = true
  /\ validTimestamp (MkBlockHeader 1 zero32 zero32 7200 7200 0 0 None None) 5000 = true.
Proof.
  pose proof (validTimestamp_window
                (MkBlockHeader 1 zero32 zero32 7300 7300 0 0 None None)
                (MkBlockHeader 1 zero32 zero32 7200 7200 0 0 None None) 100 5000)
    as (Hiff & Hmono).
  assert (H : validTimestamp (MkBlockHeader 1 zero32 zero32 7300 7300 0 0 None None) 100 = true).
  { apply Hiff. cbn [time]. lia. }
  split; [exact H |].
  apply Hmono; [exact H | lia | cbn [time]; lia].
Defined.

(** ** Hexadecimal strings *)

Lemma hex_pair (b : byte) :
  hex_value (hex_digit (Z_of_byte b / 16)) = Some (Z_of_byte b / 16)
  /\ hex_value (hex_digit (Z_of_byte b mod 16)) = Some (Z_of_byte b mod 16)
  /\ byte_of_Z (16 * (Z_of_byte b / 16) + Z_of_byte b mod 16) = b.
Proof. destruct b; repeat split. Qed.

(** Decoding the hexadecimal form of a buffer gives the buffer back. *)
Lemma from_hex_to_hex (b : bytes) : from_hex (to_hex b) = b.
Proof.
  induction b as [| x r IH]; [reflexivity |].
  cbn [to_hex from_hex].
  destruct (hex_pair x) as (Hh & Hl & Hb).
  rewrite Hh, Hl, Hb, IH. reflexivity.
Qed.

Lemma to_hex_length (b : bytes) : String.length (to_hex b) = (2 * length b)%nat.
Proof.
  induction b as [| x r IH]; [reflexivity |].
  cbn [to_hex String.length length]. rewrite IH. lia.
Qed.

(** A string of [n] characters decodes to at most [n / 2] bytes. *)
Lemma from_hex_length (n : nat) :
  forall s, (String.length s <= n)%nat -> (2 * length (from_hex s) <= String.length s)%nat.
Proof.
  induction n as [n IH] using (well_founded_induction Wf_nat.lt_wf).
  intros s Hs.
  destruct s as [| c1 [| c2 r]]; cbn [from_hex length String.length]; try lia.
  destruct (hex_value c1); [| cbn [length]; lia].
  destruct (hex_value c2); [| cbn [length]; lia].
  cbn [length].
  assert (Hr : (2 * length (from_hex r) <= String.length r)%nat).
  { cbn [String.length] in Hs. apply (IH (String.length r)); lia. }
  lia.
Qed.

(** ** The ways to decode a header *)

Section Decoders.

Variable sha256sha256 : bytes -> bytes.
Variable AuxPow_toBufferWriter : AuxPow -> BufferWriter.t -> result BufferWriter.t.
Variable readVarintNum : BufferReader.M Z.

Local Abbreviation decode := (fromBuffer sha256sha256 AuxPow_toBufferWriter readVarintNum).
Local Abbreviation construct := (newBlockHeader sha256sha256 AuxPow_toBufferWriter readVarintNum).
Local Abbreviation encode := (toBuffer AuxPow_toBufferWriter).

(** The [info] read from a buffer carries no [hash]. *)
Lemma fromBufferReader_hash_none (br br' : BufferReader.t) (info : Info) :
  _fromBufferReader readVarintNum br = Ok (info, br') -> info_hash info = None.
Proof.
  unfold _fromBufferReader, BufferReader.bindM, BufferReader.ret.
  destruct (BufferReader.readInt32LE br) as [[v br1] | e]; [| discriminate].
  destruct (BufferReader.read 32 br1) as [[p br2] | e]; [| discriminate].
  destruct (BufferReader.read 32 br2) as [[m br3] | e]; [| discriminate].
  destruct (BufferReader.readUInt32LE br3) as [[t br4] | e]; [| discriminate].
  destruct (BufferReader.readUInt32LE br4) as [[bi br5] | e]; [| discriminate].
  destruct (BufferReader.readUInt32LE br5) as [[n br6] | e]; [| discriminate].
  destruct (AuxPow_new readVarintNum v br6) as [[a br7] | e]; [| discriminate].
  intros H. injection H as <- _. reflexivity.
Qed.

Lemma construct_buffer (buf : bytes) : construct (ArgBuffer buf) = decode buf.
Proof.
  unfold fromBuffer, fromBufferReader.
  unfold newBlockHeader at 1. cbn [_from].
  destruct (_fromBufferReader readVarintNum (BufferReader.mk buf 0))
    as [[info br'] | e] eqn:Hread; [| reflexivity].
  pose proof (fromBufferReader_hash_none _ _ _ Hread) as Hh.
  cbn [bind]. cbv zeta. rewrite Hh.
  rewrite (newBlockHeader_info sha256sha256 AuxPow_toBufferWriter readVarintNum info Hh).
  reflexivity.
Qed.

(** The constructor on a buffer, [fromBuffer] and [fromRawBlock] agree on
    every buffer, in the header they return and in the error they fail
    with: the constructor reads the buffer itself, the other two read it and
    hand the constructor the fields. *)
Theorem decoders_agree (buf : bytes) :
  construct (ArgBuffer buf) = decode buf
  /\ fromRawBlock sha256sha256 AuxPow_toBufferWriter readVarintNum buf = decode buf.
Proof.
  split; [apply construct_buffer | reflexivity].
Qed.

(** A decoded header is the header of the buffer's fixed fields, around
    whatever payload was parsed. *)
Lemma fromBuffer_fields (buf : bytes) (h : BlockHeader) :
  decode buf = Ok h ->
  80 <= blen buf /\ exists a, h = assign_fields (fixed_info buf a).
Proof.
  intros Hdec.
  destruct (Z.lt_ge_cases (blen buf) 80) as [Hshort | Hlong].
  { rewrite fromBuffer_short in Hdec by exact Hshort. discriminate. }
  split; [lia |].
  rewrite fromBuffer_long in Hdec by lia.
  destruct (AuxPow_new _ _ _) as [[a br'] | e]; [| discriminate].
  injection Hdec as <-. exists a. reflexivity.
Qed.

(** Encoding a decoded header without its payload gives back the first 80
    bytes it was decoded from, whatever followed them; so its hash is the
    double SHA-256 of those bytes and its id the hexadecimal form of that
    digest reversed; and a header without AuxPoW encodes to the same 80 bytes
    with the payload asked for. *)
Theorem decoded_header_encodes_to_source (buf : bytes) (h : BlockHeader) :
  decode buf = Ok h ->
  encode h false = Ok (firstn 80 buf)
  /\ _getHash sha256sha256 AuxPow_toBufferWriter h = Ok (sha256sha256 (firstn 80 buf))
  /\ hash_value (hash sha256sha256 AuxPow_toBufferWriter h)
     = Ok (to_hex (rev (sha256sha256 (firstn 80 buf))))
  /\ (isAuxPow h = false -> encode h true = Ok (firstn 80 buf)).
Proof.
  intros Hdec.
  destruct (fromBuffer_fields buf h Hdec) as (Hlen & a & ->).
  pose proof (fields_ok_fixed buf a Hlen) as Hok.
  assert (Henc : encode (assign_fields (fixed_info buf a)) false = Ok (firstn 80 buf)).
  { rewrite toBuffer_fixed by (try exact Hok; reflexivity).
    rewrite fixed_bytes_decoded by exact Hlen. reflexivity. }
  assert (Hget : _getHash sha256sha256 AuxPow_toBufferWriter (assign_fields (fixed_info buf a))
                 = Ok (sha256sha256 (firstn 80 buf))).
  { unfold _getHash. rewrite Henc. reflexivity. }
  split; [exact Henc | split; [exact Hget | split]].
  - unfold hash. cbn [_id assign_fields]. rewrite Hget. reflexivity.
  - intros Hflag. rewrite toBuffer_fixed; [| exact Hok | rewrite Hflag; reflexivity].
    rewrite fixed_bytes_decoded by exact Hlen. reflexivity.
Qed.

(** [toString] then [fromString]: a decoded header without AuxPoW prints as
    160 hexadecimal digits, and reading them gives the same header. *)
Theorem toString_fromString (buf : bytes) (h : BlockHeader) :
  decode buf = Ok h ->
  isAuxPow h = false ->
  exists s,
    toString AuxPow_toBufferWriter h = Ok s
    /\ String.length s = 160%nat
    /\ fromString sha256sha256 AuxPow_toBufferWriter readVarintNum s = Ok h.
Proof.
  intros Hdec Hflag.
  destruct (fromBuffer_fields buf h Hdec) as (Hlen & a & ->).
  pose proof (fields_ok_fixed buf a Hlen) as Hok.
  pose proof (firstn_80_length buf Hlen) as Hpre.
  rewrite isAuxPow_assign in Hflag.
  assert (Ha : a = None).
  { rewrite fromBuffer_long in Hdec by exact Hlen.
    rewrite AuxPow_new_unflagged in Hdec by exact Hflag.
    injection Hdec as Hdec. symmetry. exact Hdec. }
  subst a.
  exists (to_hex (firstn 80 buf)).
  split; [| split].
  - unfold toString. rewrite toBuffer_fixed; [| exact Hok | ].
    + rewrite fixed_bytes_decoded by exact Hlen. reflexivity.
    + rewrite isAuxPow_assign, Hflag. reflexivity.
  - rewrite to_hex_length, Hpre. reflexivity.
  - unfold fromString. rewrite from_hex_to_hex.
    assert (Hv : wire_version (firstn 80 buf) = wire_version buf).
    { unfold wire_version. rewrite firstn_firstn. reflexivity. }
    rewrite fromBuffer_unflagged.
    + rewrite fixed_info_prefix. reflexivity.
    + unfold blen. rewrite Hpre. lia.
    + rewrite Hv. exact Hflag.
Qed.

(** [fromString] on fewer than 160 characters: the digits decode to fewer
    than 80 bytes and the header does not decode. The empty string and a
    string cut short are refused this way, never read as a partial header. *)
Theorem fromString_short (s : string) :
  (String.length s < 160)%nat ->
  fromString sha256sha256 AuxPow_toBufferWriter readVarintNum s = Err TruncatedStream.
Proof.
  intros Hs. unfold fromString. apply fromBuffer_short.
  pose proof (from_hex_length (String.length s) s (le_n _)) as H.
  unfold blen. lia.
Qed.

End Decoders.

Lemma decoded_header_encodes_to_source_witness :
  exists h,
    fromBuffer toy_digest example_payload_writer compactSize auxpow_buffer = Ok h
    /\ toBuffer example_payload_writer h false = Ok flagged_header_bytes.
Proof.
  destruct (fromBuffer toy_digest example_payload_writer compactSize auxpow_buffer)
    as [h | e] eqn:Hdec; [| vm_compute in Hdec; discriminate].
  exists h. split; [reflexivity |].
  destruct (decoded_header_encodes_to_source toy_digest example_payload_writer compactSize
              auxpow_buffer h Hdec) as (Henc & _).
  exact Henc.
Defined.

Lemma toString_fromString_witness :
  exists h s,
    fromBuffer toy_digest toy_payload_writer compactSize plain_header_bytes = Ok h
    /\ toString toy_payload_writer h = Ok s
    /\ fromString toy_digest toy_payload_writer compactSize s = Ok h.
Proof.
  destruct (fromBuffer toy_digest toy_payload_writer compactSize plain_header_bytes)
    as [h | e] eqn:Hdec; [| vm_compute in Hdec; discriminate].
  assert (Hflag : isAuxPow h = false).
  { vm_compute in Hdec. injection Hdec as <-. reflexivity. }
  destruct (toString_fromString toy_digest toy_payload_writer compactSize
              plain_header_bytes h Hdec Hflag) as (s & Hs & _ & Hback).
  exists h, s. split; [reflexivity | split; assumption].
Defined.

Lemma fromString_short_witness :
  fromString toy_digest toy_payload_writer compactSize "01000000" = Err TruncatedStream.
Proof.
  apply (fromString_short toy_digest toy_payload_writer compactSize "01000000").
  cbn. lia.
Defined.

(** ** Reading a header from the middle of a buffer *)

Section Streams.

Variable sha256sha256 : bytes -> bytes.
Variable AuxPow_toBufferWriter : AuxPow -> BufferWriter.t -> result BufferWriter.t.
Variable readVarintNum : BufferReader.M Z.

Local Abbreviation decode := (fromBuffer sha256sha256 AuxPow_toBufferWriter readVarintNum).
Local Abbreviation construct := (newBlockHeader sha256sha256 AuxPow_toBufferWriter readVarintNum).

Lemma skipn_offset (p : Z) (k : nat) (buf : bytes) :
  0 <= p ->
  skipn (Z.to_nat (p + Z.of_nat k)) buf = skipn k (skipn (Z.to_nat p) buf).
Proof.
  intros Hp. rewrite skipn_skipn. f_equal. lia.
Qed.

Lemma fromBufferReader_fixed_at (buf : bytes) (p : Z) :
  0 <= p -> p + 80 <= blen buf ->
  _fromBufferReader readVarintNum (BufferReader.mk buf p)
  = match AuxPow_new readVarintNum (wire_version (skipn (Z.to_nat p) buf))
            (BufferReader.mk buf (p + 80)) with
    | Ok (a, br') => Ok (fixed_info (skipn (Z.to_nat p) buf) a, br')
    | Err e => Err e
    end.
Proof.
  intros Hp Hlen.
  unfold _fromBufferReader, BufferReader.readInt32LE, BufferReader.readUInt32LE,
    BufferReader.bindM, BufferReader.ret.
  rewrite (read_ok 4 buf p) by lia.
  rewrite (read_ok 32 buf (p + 4)) by lia.
  rewrite (read_ok 32 buf (p + 4 + 32)) by lia.
  rewrite (read_ok 4 buf (p + 4 + 32 + 32)) by lia.
  rewrite (read_ok 4 buf (p + 4 + 32 + 32 + 4)) by lia.
  rewrite (read_ok 4 buf (p + 4 + 32 + 32 + 4 + 4)) by lia.
  replace (p + 4 + 32 + 32 + 4 + 4 + 4) with (p + 80) by lia.
  replace (p + 4 + 32 + 32 + 4 + 4) with (p + Z.of_nat 76) by lia.
  replace (p + 4 + 32 + 32 + 4) with (p + Z.of_nat 72) by lia.
  replace (p + 4 + 32 + 32) with (p + Z.of_nat 68) by lia.
  replace (p + 4 + 32) with (p + Z.of_nat 36) by lia.
  replace (p + 4) with (p + Z.of_nat 4) by lia.
  rewrite !skipn_offset by exact Hp.
  reflexivity.
Qed.

(** Reading one header without AuxPoW from a reader that stands at offset
    [p] of a buffer with 80 bytes left: the read succeeds, the reader ends
    exactly 80 bytes further over the same buffer, and the header is the one
    [fromBuffer] decodes from the bytes at [p] -- from those 80 alone, and
    equally from all that follow [p]. Headers laid end to end can so be read
    one after another. *)
Theorem fromBufferReader_consumes_header (buf : bytes) (p : Z) :
  0 <= p -> p + 80 <= blen buf ->
  flagged (wire_version (skipn (Z.to_nat p) buf)) = false ->
  exists h,
    fromBufferReader sha256sha256 AuxPow_toBufferWriter readVarintNum (BufferReader.mk buf p)
    = Ok (h, BufferReader.mk buf (p + 80))
    /\ decode (firstn 80 (skipn (Z.to_nat p) buf)) = Ok h
    /\ decode (skipn (Z.to_nat p) buf) = Ok h.
Proof.
  intros Hp Hlen Hflag.
  assert (Hrest : 80 <= blen (skipn (Z.to_nat p) buf)).
  { unfold blen in *. rewrite length_skipn. lia. }
  exists (assign_fields (fixed_info (skipn (Z.to_nat p) buf) None)).
  split; [| split].
  - unfold fromBufferReader.
    rewrite fromBufferReader_fixed_at by assumption.
    rewrite AuxPow_new_unflagged by exact Hflag.
    rewrite newBlockHeader_info by reflexivity. reflexivity.
  - rewrite fromBuffer_unflagged.
    + rewrite fixed_info_prefix. reflexivity.
    + unfold blen. rewrite (firstn_80_length _ Hrest). lia.
    + unfold wire_version. rewrite firstn_firstn. exact Hflag.
  - apply fromBuffer_unflagged; assumption.
Qed.

End Streams.

Lemma fromBufferReader_consumes_header_witness :
  exists h,
    fromBufferReader toy_digest toy_payload_writer compactSize
      (BufferReader.mk (flagged_header_bytes ++ plain_header_bytes) 80)
    = Ok (h, BufferReader.mk (flagged_header_bytes ++ plain_header_bytes) 160)
    /\ fromBuffer toy_digest toy_payload_writer compactSize plain_header_bytes = Ok h.
Proof.
  destruct (fromBufferReader_consumes_header toy_digest toy_payload_writer compactSize
              (flagged_header_bytes ++ plain_header_bytes) 80)
    as (h & Hread & _ & Hdec).
  - lia.
  - vm_compute. discriminate.
  - reflexivity.
  - exists h. split; [exact Hread | exact Hdec].
Defined.

(** ** The memo cell of [id] and [hash], and the object form *)

Section Memo.

Variable sha256sha256 : bytes -> bytes.
Variable AuxPow_toBufferWriter : AuxPow -> BufferWriter.t -> result BufferWriter.t.
Variable readVarintNum : BufferReader.M Z.

Local Abbreviation construct := (newBlockHeader sha256sha256 AuxPow_toBufferWriter readVarintNum).
Local Abbreviation hash_of := (hash sha256sha256 AuxPow_toBufferWriter).
Local Abbreviation digest_of := (_getHash sha256sha256 AuxPow_toBufferWriter).

Lemma getHash_fixed_fields (h1 h2 : BlockHeader) :
  same_fixed_fields h1 h2 -> digest_of h1 = digest_of h2.
Proof.
  intros H. unfold _getHash.
  rewrite (toBuffer_false_fields AuxPow_toBufferWriter AuxPow_toBufferWriter h1 h2 H).
  reflexivity.
Qed.

Lemma same_fixed_fields_set_id (h : BlockHeader) (s : string) :
  same_fixed_fields (set_id h s) h.
Proof. repeat split. Qed.

Lemma getHash_set_id (h : BlockHeader) (s : string) :
  digest_of (set_id h s) = digest_of h.
Proof. apply getHash_fixed_fields, same_fixed_fields_set_id. Qed.

(** A header whose memo cell is empty: the getter computes, and fills it. *)
Lemma hash_fresh (h : BlockHeader) :
  _id h = None ->
  hash_of h = (d <- digest_of h ;; Ok (to_hex (rev d), set_id h (to_hex (rev d)))).
Proof. intros H. unfold hash. rewrite H. reflexivity. Qed.

(** What a read of [hash] gives on a header with a coherent memo cell. *)
Lemma hash_coherent (h h' : BlockHeader) (s : string) :
  memo_coherent sha256sha256 AuxPow_toBufferWriter h ->
  hash_of h = Ok (s, h') ->
  exists d, digest_of h = Ok d /\ s = to_hex (rev d) /\ (h' = h \/ h' = set_id h s).
Proof.
  intros Hmemo Hh. unfold hash in Hh.
  destruct (_id h) as [c |] eqn:Hid.
  - destruct (JS.truthy_string c) eqn:Htruthy.
    + injection Hh as <- <-.
      destruct (Hmemo c Hid Htruthy) as (d & Hd & Hs).
      exists d. split; [exact Hd | split; [exact Hs | left; reflexivity]].
    + destruct (digest_of h) as [d | e]; [| discriminate].
      cbn [bind] in Hh. injection Hh as <- <-.
      exists d. split; [reflexivity | split; [reflexivity | right; reflexivity]].
  - destruct (digest_of h) as [d | e]; [| discriminate].
    cbn [bind] in Hh. injection Hh as <- <-.
    exists d. split; [reflexivity | split; [reflexivity | right; reflexivity]].
Qed.

Lemma memo_coherent_empty (h : BlockHeader) :
  _id h = None -> memo_coherent sha256sha256 AuxPow_toBufferWriter h.
Proof. intros H s Hs. rewrite H in Hs. discriminate. Qed.

Lemma memo_coherent_set_id (h : BlockHeader) (d : bytes) :
  digest_of h = Ok d ->
  memo_coherent sha256sha256 AuxPow_toBufferWriter (set_id h (to_hex (rev d))).
Proof.
  intros Hd s Hs _. cbn [_id set_id] in Hs. injection Hs as <-.
  exists d. split; [rewrite getHash_set_id; exact Hd | reflexivity].
Qed.

Lemma construct_memo_coherent (arg : Arg) (h : BlockHeader) :
  construct arg = Ok h -> memo_coherent sha256sha256 AuxPow_toBufferWriter h.
Proof.
  unfold newBlockHeader.
  destruct (_from readVarintNum arg) as [info | e]; [| discriminate].
  cbn [bind]. cbv zeta.
  destruct (info_hash info) as [supplied |].
  - destruct (JS.truthy_string supplied).
    + rewrite hash_fresh by reflexivity.
      destruct (digest_of (assign_fields info)) as [d | e] eqn:Hd; [| discriminate].
      cbn [bind fst snd].
      destruct (String.eqb _ supplied); [| discriminate].
      intros H. injection H as <-. apply memo_coherent_set_id. exact Hd.
    + intros H. injection H as <-. apply memo_coherent_empty. reflexivity.
  - intros H. injection H as <-. apply memo_coherent_empty. reflexivity.
Qed.

(** A second read of [hash] gives the first read's value and changes
    nothing, also when the value is the empty string and is computed again. *)
Lemma hash_stable (h h' : BlockHeader) (s : string) :
  hash_of h = Ok (s, h') -> hash_of h' = Ok (s, h').
Proof.
  intros Hh.
  destruct (JS.truthy_string s) eqn:Htruthy.
  { exact (hash_memoized sha256sha256 AuxPow_toBufferWriter h h' s Hh Htruthy). }
  assert (Hcompute : forall g d, digest_of g = Ok d -> to_hex (rev d) = s ->
            hash_of (set_id g s) = Ok (s, set_id g s)).
  { intros g d Hd Hs. unfold hash. cbn [_id set_id]. rewrite Htruthy.
    fold (set_id g s). rewrite getHash_set_id, Hd. cbn [bind]. rewrite Hs.
    reflexivity. }
  unfold hash in Hh.
  destruct (_id h) as [c |] eqn:Hid.
  - destruct (JS.truthy_string c) eqn:Hc.
    + injection Hh as <- <-. rewrite Hc in Htruthy. discriminate.
    + destruct (digest_of h) as [d | e] eqn:Hd; [| discriminate].
      cbn [bind] in Hh. injection Hh as Hs <-. rewrite Hs.
      exact (Hcompute h d Hd Hs).
  - destruct (digest_of h) as [d | e] eqn:Hd; [| discriminate].
    cbn [bind] in Hh. injection Hh as Hs <-. rewrite Hs.
    exact (Hcompute h d Hd Hs).
Qed.

(** The memo cell of a constructed header agrees with its fields, and every
    read of [hash] keeps it so: the read returns the reversed double SHA-256
    of the 80-byte encoding in hexadecimal, and reading again returns the
    same string and leaves the header as it is. *)
Theorem constructed_memo_coherent (arg : Arg) (h : BlockHeader) :
  construct arg = Ok h ->
  memo_coherent sha256sha256 AuxPow_toBufferWriter h
  /\ forall s h',
       hash_of h = Ok (s, h') ->
       (exists d, digest_of h = Ok d /\ s = to_hex (rev d))
       /\ memo_coherent sha256sha256 AuxPow_toBufferWriter h'
       /\ hash_of h' = Ok (s, h').
Proof.
  intros Hc. pose proof (construct_memo_coherent arg h Hc) as Hmemo.
  split; [exact Hmemo |].
  intros s h' Hh.
  destruct (hash_coherent h h' s Hmemo Hh) as (d & Hd & Hs & Hcase).
  split; [exists d; split; [exact Hd | exact Hs] | split].
  - destruct Hcase as [-> | ->]; [exact Hmemo |].
    rewrite Hs. apply memo_coherent_set_id. exact Hd.
  - exact (hash_stable h h' s Hh).
Qed.

(** Nothing empties the memo cell: once [hash] has been read with a
    non-empty value, an assignment to [bits] leaves the getter returning the
    old value; and when the fields now hash to something else, the object
    [toObject] writes carries the old hash and [fromObject] refuses it with
    the state-mismatch error. *)
Theorem memo_survives_assignment (h h' : BlockHeader) (s : string) (b : Z) :
  hash_of h = Ok (s, h') ->
  JS.truthy_string s = true ->
  hash_of (assign_bits h' b) = Ok (s, assign_bits h' b)
  /\ forall d,
       digest_of (assign_bits h' b) = Ok d ->
       to_hex (rev d) <> s ->
       exists obj,
         toObject sha256sha256 AuxPow_toBufferWriter (assign_bits h' b)
         = Ok (obj, assign_bits h' b)
         /\ fm_hash obj = Some s
         /\ fm_bits obj = b
         /\ fromObject sha256sha256 AuxPow_toBufferWriter readVarintNum obj
            = Err StateMismatch.
Proof.
  intros Hh Htruthy.
  assert (Hid : _id h' = Some s).
  { unfold hash in Hh.
    destruct (_id h) as [c |] eqn:Hc.
    - destruct (JS.truthy_string c).
      + injection Hh as <- <-. exact Hc.
      + destruct (digest_of h); [| discriminate].
        cbn [bind] in Hh. injection Hh as <- <-. reflexivity.
    - destruct (digest_of h); [| discriminate].
      cbn [bind] in Hh. injection Hh as <- <-. reflexivity. }
  assert (Hstale : hash_of (assign_bits h' b) = Ok (s, assign_bits h' b)).
  { unfold hash. cbn [_id assign_bits]. rewrite Hid, Htruthy. reflexivity. }
  split; [exact Hstale |].
  intros d Hd Hne.
  eexists. split; [unfold toObject; rewrite Hstale; cbn [bind fst snd]; reflexivity |].
  split; [reflexivity | split; [reflexivity |]].
  unfold fromObject. rewrite newBlockHeader_object. cbv zeta.
  cbn [fm_hash object_of_info _fromObject info_hash]. rewrite Htruthy.
  rewrite hash_fresh by reflexivity.
  rewrite (getHash_fixed_fields _ (assign_bits h' b)).
  - rewrite Hd. cbn [bind fst snd].
    destruct (String.eqb_spec (to_hex (rev d)) s) as [Heq | _]; [| reflexivity].
    contradiction.
  - unfold same_fixed_fields.
    cbn [version prevHash merkleRoot time bits nonce assign_fields assign_bits
         _fromObject object_of_info fm_prevHash fm_merkleRoot fm_version fm_time
         fm_bits fm_nonce info_version info_prevHash info_merkleRoot info_time
         info_bits info_nonce].
    rewrite !from_hex_to_hex, !rev_involutive. repeat split.
Qed.

(** [toObject] then [fromObject], on a header whose memo cell is coherent:
    the object is accepted, and the header read back has the same six fixed
    fields, [timestamp] equal to [time], the same hash as the object says,
    and no AuxPoW payload -- the object form does not carry one. *)
Theorem toObject_fromObject (h h' : BlockHeader) (obj : FieldMap) :
  memo_coherent sha256sha256 AuxPow_toBufferWriter h ->
  toObject sha256sha256 AuxPow_toBufferWriter h = Ok (obj, h') ->
  exists s h2,
    fm_hash obj = Some s
    /\ fromObject sha256sha256 AuxPow_toBufferWriter readVarintNum obj = Ok h2
    /\ same_fixed_fields h h2
    /\ timestamp h2 = time h
    /\ _auxpow h2 = None
    /\ hash_value (hash_of h2) = Ok s.
Proof.
  intros Hmemo Hto. unfold toObject in Hto.
  destruct (hash_of h) as [[s h1] | e] eqn:Hh; [| discriminate].
  cbn [bind fst snd] in Hto. injection Hto as <- <-.
  destruct (hash_coherent h h1 s Hmemo Hh) as (d & Hd & Hs & _).
  set (back := MkBlockHeader (version h) (prevHash h) (merkleRoot h) (time h) (time h)
                 (bits h) (nonce h) None None).
  assert (Hfields : same_fixed_fields h back) by (repeat split).
  assert (Hback : hash_of back = Ok (s, set_id back s)).
  { rewrite hash_fresh by reflexivity.
    rewrite <- (getHash_fixed_fields h back Hfields), Hd. cbn [bind]. rewrite Hs.
    reflexivity. }
  exists s.
  unfold fromObject. rewrite newBlockHeader_object. cbv zeta.
  cbn [fm_hash object_of_info _fromObject info_hash].
  unfold assign_fields, _fromObject, object_of_info. cbv zeta.
  cbn [fm_prevHash fm_merkleRoot fm_version fm_time fm_bits fm_nonce fm_auxpow
       info_version info_prevHash info_merkleRoot info_time info_bits info_nonce
       info_auxpow].
  rewrite !from_hex_to_hex, !rev_involutive. fold back.
  destruct (JS.truthy_string s) eqn:Htruthy.
  - rewrite Hback. cbn [bind fst snd]. rewrite String.eqb_refl.
    exists (set_id back s).
    split; [reflexivity | split; [reflexivity | split; [repeat split | ]]].
    split; [reflexivity | split; [reflexivity |]].
    unfold hash_value, hash. cbn [_id set_id]. rewrite Htruthy. reflexivity.
  - exists back.
    split; [reflexivity | split; [reflexivity | split; [exact Hfields |]]].
    split; [reflexivity | split; [reflexivity |]].
    unfold hash_value. rewrite Hback. reflexivity.
Qed.

End Memo.

Lemma constructed_memo_coherent_witness :
  exists h,
    newBlockHeader toy_digest toy_payload_writer compactSize (ArgBuffer plain_header_bytes)
    = Ok h
    /\ memo_coherent toy_digest toy_payload_writer h.
Proof.
  destruct (newBlockHeader toy_digest toy_payload_writer compactSize
              (ArgBuffer plain_header_bytes)) as [h | e] eqn:Hc;
    [| vm_compute in Hc; discriminate].
  exists h. split; [reflexivity |].
  destruct (constructed_memo_coherent toy_digest toy_payload_writer compactSize
              (ArgBuffer plain_header_bytes) h Hc) as (Hmemo & _).
  exact Hmemo.
Defined.

Lemma memo_survives_assignment_witness :
  let digest := fun b : bytes => toy_digest (rev b) in
  exists s h' obj,
    hash digest toy_payload_writer (header_of 1 0x1d00ffff) = Ok (s, h')
    /\ hash digest toy_payload_writer (assign_bits h' 0x1c00ffff)
       = Ok (s, assign_bits h' 0x1c00ffff)
    /\ fm_bits obj = 0x1c00ffff
    /\ fromObject digest toy_payload_writer compactSize obj = Err StateMismatch.
Proof.
  intros digest.
  destruct (hash digest toy_payload_writer (header_of 1 0x1d00ffff))
    as [[s h'] | e] eqn:Hh; [| vm_compute in Hh; discriminate].
  pose proof Hh as Hval. vm_compute in Hval. injection Hval as Hs Hh'.
  assert (Htruthy : JS.truthy_string s = true) by (rewrite <- Hs; reflexivity).
  destruct (memo_survives_assignment digest toy_payload_writer compactSize
              (header_of 1 0x1d00ffff) h' s 0x1c00ffff Hh Htruthy) as (Hstale & Hrefuse).
  destruct (_getHash digest toy_payload_writer (assign_bits h' 0x1c00ffff))
    as [d | e] eqn:Hd; [| rewrite <- Hh' in Hd; vm_compute in Hd; discriminate].
  destruct (Hrefuse d eq_refl) as (obj & _ & _ & Hbits & Hrej).
  - rewrite <- Hh' in Hd. vm_compute in Hd. injection Hd as <-.
    rewrite <- Hs. intros Heq. vm_compute in Heq. discriminate.
  - exists s, h', obj.
    split; [reflexivity | split; [exact Hstale | split; [exact Hbits | exact Hrej]]].
Defined.

Lemma toObject_fromObject_witness :
  exists obj h' h2,
    toObject toy_digest toy_payload_writer (header_of 1 0x1d00ffff) = Ok (obj, h')
    /\ fromObject toy_digest toy_payload_writer compactSize obj = Ok h2
    /\ same_fixed_fields (header_of 1 0x1d00ffff) h2.
Proof.
  destruct (toObject toy_digest toy_payload_writer (header_of 1 0x1d00ffff))
    as [[obj h'] | e] eqn:Hto; [| vm_compute in Hto; discriminate].
  destruct (toObject_fromObject toy_digest toy_payload_writer compactSize
              (header_of 1 0x1d00ffff) h' obj)
    as (s & h2 & _ & Hfrom & Hsame & _).
  - intros s Hs. discriminate.
  - exact Hto.
  - exists obj, h', h2. split; [reflexivity | split; [exact Hfrom | exact Hsame]].
Defined.

(** ** Construction from an object *)

Section Objects.

Variable sha256sha256 : bytes -> bytes.
Variable scrypt : bytes -> bytes.
Variable AuxPow_toBufferWriter : AuxPow -> BufferWriter.t -> result BufferWriter.t.
Variable readVarintNum : BufferReader.M Z.

Local Abbreviation construct := (newBlockHeader sha256sha256 AuxPow_toBufferWriter readVarintNum).
Local Abbreviation encode := (toBuffer AuxPow_toBufferWriter).

(** [fromObject] and the constructor agree on every object, in the header
    and in the error: [fromObject] converts the object and the constructor
    converts the result once more, which changes nothing. *)
Theorem fromObject_is_constructor (obj : FieldMap) :
  fromObject sha256sha256 AuxPow_toBufferWriter readVarintNum obj
  = construct (ArgObject obj).
Proof.
  unfold fromObject. rewrite !newBlockHeader_object. cbv zeta.
  destruct obj as [hs v p m t b n a]. destruct p, m; reflexivity.
Qed.

(** The two hashes of an object may be given as buffers in wire order or as
    hexadecimal strings in display order, the bytes reversed: both forms
    construct the same header, or fail with the same error. *)
Theorem hash_fields_hex_or_buffer (hs : option string) (v t b n : Z)
    (p m : bytes) (a : option AuxPow) :
  construct (ArgObject (MkFieldMap hs v (HexString (to_hex (rev p)))
                          (HexString (to_hex (rev m))) t b n a))
  = construct (ArgObject (MkFieldMap hs v (Buf p) (Buf m) t b n a)).
Proof.
  rewrite !newBlockHeader_object. cbv zeta.
  unfold _fromObject. cbv zeta.
  cbn [fm_hash fm_prevHash fm_merkleRoot fm_version fm_time fm_bits fm_nonce fm_auxpow].
  rewrite !from_hex_to_hex, !rev_involutive. reflexivity.
Qed.

(** A header with the AuxPoW bit of its version set and no payload -- what
    [fromObject] builds from the output of [toObject], which has no
    [auxpow] entry -- has a hash and an 80-byte encoding, while every call
    that reaches for the payload fails with a TypeError: [toBuffer] with the
    payload, [toString] and [validProofOfWork]. *)
Theorem missing_payload_type_error (h : BlockHeader) :
  fields_ok h ->
  isAuxPow h = true ->
  _auxpow h = None ->
  encode h true = Err TypeError
  /\ toString AuxPow_toBufferWriter h = Err TypeError
  /\ validProofOfWork scrypt AuxPow_toBufferWriter h = Err TypeError
  /\ encode h false = Ok (fixed_bytes h)
  /\ _getHash sha256sha256 AuxPow_toBufferWriter h = Ok (sha256sha256 (fixed_bytes h)).
Proof.
  intros Hok Hflag Hnone.
  assert (Henc : encode h true = Err TypeError).
  { destruct Hok as (Hv & _ & _ & Ht & Hb & Hn).
    unfold toBuffer, toBufferWriter, BufferWriter.writeInt32LE, BufferWriter.writeUInt32LE.
    rewrite Hv. cbn [bind]. rewrite Ht. cbn [bind]. rewrite Hb. cbn [bind].
    rewrite Hn. cbn [bind]. unfold auxpow. rewrite Hflag, Hnone. reflexivity. }
  assert (Hplain : encode h false = Ok (fixed_bytes h)).
  { apply toBuffer_fixed; [exact Hok | reflexivity]. }
  split; [exact Henc | split; [| split; [| split; [exact Hplain |]]]].
  - unfold toString. rewrite Henc. reflexivity.
  - unfold validProofOfWork, auxpow. rewrite Hflag, Hnone. reflexivity.
  - unfold _getHash. rewrite Hplain. reflexivity.
Qed.

(** Writing a header into a writer that already holds data appends the 80
    bytes of the fixed fields after that data and changes none of it; without
    a writer the header starts an empty one. *)
Theorem toBufferWriter_appends (h : BlockHeader) (bw : BufferWriter.t) (include : bool) :
  fields_ok h ->
  (include && isAuxPow h = false)%bool ->
  (exists bw',
     toBufferWriter AuxPow_toBufferWriter h (Some bw) include = Ok bw'
     /\ BufferWriter.concat bw' = BufferWriter.concat bw ++ fixed_bytes h)
  /\ toBufferWriter AuxPow_toBufferWriter h None include
     = toBufferWriter AuxPow_toBufferWriter h (Some BufferWriter.new) include.
Proof.
  intros (Hv & _ & _ & Ht & Hb & Hn) Hinc.
  split; [| reflexivity].
  unfold toBufferWriter, BufferWriter.writeInt32LE, BufferWriter.writeUInt32LE.
  rewrite Hv. cbn [bind]. rewrite Ht. cbn [bind]. rewrite Hb. cbn [bind].
  rewrite Hn. cbn [bind]. rewrite Hinc.
  eexists. split; [reflexivity |].
  unfold BufferWriter.concat, BufferWriter.write, fixed_bytes.
  cbn [BufferWriter.bufs].
  rewrite !concat_app. cbn [List.concat]. rewrite !app_nil_r, <- !app_assoc.
  reflexivity.
Qed.

End Objects.

Lemma missing_payload_type_error_witness :
  toBuffer toy_payload_writer (header_of 0x100 0x1d00ffff) true = Err TypeError
  /\ validProofOfWork toy_digest toy_payload_writer (header_of 0x100 0x1d00ffff)
     = Err TypeError.
Proof.
  destruct (missing_payload_type_error toy_digest toy_digest toy_payload_writer
              (header_of 0x100 0x1d00ffff)) as (Henc & _ & Hpow & _).
  - repeat split.
  - reflexivity.
  - reflexivity.
  - split; [exact Henc | exact Hpow].
Defined.

Lemma toBufferWriter_appends_witness :
  exists bw',
    toBufferWriter toy_payload_writer (header_of 1 0x1d00ffff)
      (Some (BufferWriter.mk [[Byte.xf9; Byte.xbe]])) true = Ok bw'
    /\ BufferWriter.concat bw'
       = [Byte.xf9; Byte.xbe] ++ fixed_bytes (header_of 1 0x1d00ffff).
Proof.
  destruct (toBufferWriter_appends toy_payload_writer (header_of 1 0x1d00ffff)
              (BufferWriter.mk [[Byte.xf9; Byte.xbe]]) true) as ((bw' & Hw & Hc) & _).
  - repeat split.
  - reflexivity.
  - exists bw'. split; [exact Hw | exact Hc].
Defined.

(** ** The target and the largest hash *)

Lemma getTargetDifficulty_bound (this : BlockHeader) (arg : option Z) :
  let e := JS.ushr (JS.or_default arg (bits this)) 24 in
  0 <= e <= 255 /\ getTargetDifficulty this arg < 256 ^ Z.max 3 e.
Proof.
  intros e. set (b := JS.or_default arg (bits this)) in *.
  assert (He : 0 <= e <= 255).
  { unfold e, JS.ushr, JS.ToUint32. change (24 mod 32) with 24.
    rewrite Z.shiftr_div_pow2 by lia.
    pose proof (Z.mod_pos_bound b (2 ^ 32) ltac:(lia)) as Hb.
    split.
    - apply Z.div_pos; lia.
    - apply Z.lt_succ_r. apply Z.div_lt_upper_bound; lia. }
  split; [exact He |].
  rewrite getTargetDifficulty_value. fold b. fold e.
  pose proof (Z.mod_pos_bound b (2 ^ 24) ltac:(lia)) as Hm.
  replace (256 ^ Z.max 3 e) with (2 ^ 24 * 2 ^ Z.max 0 (8 * (e - 3))).
  - apply Z.mul_lt_mono_pos_r; [apply Z.pow_pos_nonneg; lia | lia].
  - rewrite <- Z.pow_add_r by lia.
    change 256 with (2 ^ 8). rewrite <- Z.pow_mul_r by lia.
    f_equal. lia.
Qed.

(** The exponent byte bounds the target: a target is below 256 to the power
    of the exponent, of 3 for a smaller exponent; so with an exponent of at
    most 32 the target is below [LARGEST_HASH], the bound of the 256-bit
    hashes it is compared with. *)
Theorem getTargetDifficulty_below_largest_hash (this : BlockHeader) (arg : option Z) :
  JS.ushr (JS.or_default arg (bits this)) 24 <= 32 ->
  getTargetDifficulty this arg < 256 ^ Z.max 3 (JS.ushr (JS.or_default arg (bits this)) 24)
  /\ getTargetDifficulty this arg < LARGEST_HASH.
Proof.
  intros Hle.
  destruct (getTargetDifficulty_bound this arg) as (He & Hbound).
  split; [exact Hbound |].
  eapply Z.lt_le_trans; [exact Hbound |].
  change LARGEST_HASH with (256 ^ 32).
  apply Z.pow_le_mono_r; lia.
Qed.

Lemma getTargetDifficulty_below_largest_hash_witness :
  getTargetDifficulty (header_of 1 0x1e0ffff0) None < LARGEST_HASH.
Proof.
  destruct (getTargetDifficulty_below_largest_hash (header_of 1 0x1e0ffff0) None)
    as (_ & H).
  - vm_compute. discriminate.
  - exact H.
Defined.

(** ** What the AuxPoW parse returns *)

Lemma read_content (len : Z) (br br' : BufferReader.t) (b : bytes) :
  BufferReader.read len br = Ok (b, br') ->
  b = firstn (Z.to_nat len) (skipn (Z.to_nat (BufferReader.pos br)) (BufferReader.buf br)).
Proof.
  unfold BufferReader.read, BufferReader.peek.
  destruct (_ && _)%bool; [| discriminate].
  intros H. injection H as <- _. reflexivity.
Qed.

Lemma read_length (len : Z) (n : nat) (br br' : BufferReader.t) (b : bytes) :
  len = Z.of_nat n ->
  BufferReader.read len br = Ok (b, br') -> length b = n.
Proof.
  intros Hn H. pose proof (read_inv len br) as Hinv. rewrite H in Hinv.
  destruct Hinv as (Hlen & _). unfold blen in Hlen. lia.
Qed.

(** A loop collects one value per round, each with what its body ensures. *)
Lemma for_push_inv {A : Type} (P : A -> Prop) (body : BufferReader.M A) :
  (forall br x br', body br = Ok (x, br') -> P x) ->
  forall n br xs br',
    BufferReader.for_push n body br = Ok (xs, br') ->
    length xs = n /\ Forall P xs.
Proof.
  intros Hbody. induction n as [| n IH]; intros br xs br' H.
  - cbn [BufferReader.for_push] in H. unfold BufferReader.ret in H.
    injection H as <- _. split; [reflexivity | constructor].
  - rewrite for_push_step in H. unfold BufferReader.bindM in H.
    destruct (body br) as [[x br1] | e] eqn:Hx; [| discriminate].
    destruct (BufferReader.for_push n body br1) as [[xs' br2] | e] eqn:Hxs;
      [| discriminate].
    unfold BufferReader.ret in H. injection H as <- _.
    destruct (IH br1 xs' br2 Hxs) as (Hlen & Hall).
    split; [cbn [length]; rewrite Hlen; reflexivity |].
    constructor; [exact (Hbody br x br1 Hx) | exact Hall].
Qed.

(** The loop of a Merkle branch: [n] reads of 32 bytes, each reversed. *)
Lemma for_push_readReverse (n : nat) :
  forall br xs br',
    BufferReader.for_push n (BufferReader.readReverse 32) br = Ok (xs, br') ->
    BufferReader.buf br' = BufferReader.buf br
    /\ BufferReader.pos br' = BufferReader.pos br + 32 * Z.of_nat n
    /\ List.concat (map (@rev byte) xs)
       = firstn (32 * n) (skipn (Z.to_nat (BufferReader.pos br)) (BufferReader.buf br)).
Proof.
  induction n as [| n IH]; intros br xs br' H.
  - cbn [BufferReader.for_push] in H. unfold BufferReader.ret in H.
    injection H as <- <-. split; [reflexivity | split; [lia | reflexivity]].
  - rewrite for_push_step in H.
    unfold BufferReader.bindM at 1 in H. unfold BufferReader.readReverse at 1 in H.
    unfold BufferReader.bindM at 1 in H.
    pose proof (read_inv 32 br) as Hinv.
    destruct (BufferReader.read 32 br) as [[b br1] | e] eqn:Hb; [| discriminate].
    unfold BufferReader.ret at 1 in H. unfold BufferReader.bindM at 1 in H.
    destruct (BufferReader.for_push n (BufferReader.readReverse 32) br1)
      as [[xs' br2] | e] eqn:Hxs; [| discriminate].
    unfold BufferReader.ret in H. injection H as <- <-.
    destruct Hinv as (_ & Ebuf & Epos & Hpos & _).
    destruct (IH br1 xs' br2 Hxs) as (Ebuf' & Epos' & Hcontent).
    split; [congruence | split; [lia |]].
    cbn [map List.concat]. rewrite rev_involutive, Hcontent.
    rewrite (read_content 32 br br1 b Hb), Ebuf, Epos.
    replace (Z.to_nat (BufferReader.pos br + 32))
      with (32 + Z.to_nat (BufferReader.pos br))%nat by lia.
    rewrite <- skipn_skipn.
    replace (32 * S n)%nat with (32 + 32 * n)%nat by lia.
    symmetry. apply firstn_add_skipn.
Qed.

Section ParseShape.

Variable readVarintNum : BufferReader.M Z.
Variable Script_accepts : bytes -> bool.

Lemma merkleBranch_decoded (br br' : BufferReader.t) (mb : MerkleBranch) :
  merkleBranch readVarintNum br = Ok (mb, br') ->
  exists br1,
    readVarintNum br = Ok (branchLen mb, br1)
    /\ length (branchHashes mb) = Z.to_nat (branchLen mb)
    /\ Forall (fun x => length x = 32%nat) (branchHashes mb)
    /\ List.concat (map (@rev byte) (branchHashes mb))
       = firstn (32 * Z.to_nat (branchLen mb))
           (skipn (Z.to_nat (BufferReader.pos br1)) (BufferReader.buf br1))
    /\ is_int32 (branchSideMask mb) = true
    /\ BufferReader.buf br' = BufferReader.buf br1
    /\ BufferReader.pos br'
       = BufferReader.pos br1 + 32 * Z.max 0 (branchLen mb) + 4.
Proof.
  unfold merkleBranch. unfold BufferReader.bindM at 1.
  destruct (readVarintNum br) as [[n br1] | e]; [| discriminate].
  unfold BufferReader.bindM at 1.
  destruct (BufferReader.for_push (Z.to_nat n) (BufferReader.readReverse 32) br1)
    as [[xs br2] | e] eqn:Hxs; [| discriminate].
  unfold BufferReader.bindM at 1. unfold BufferReader.readInt32LE.
  unfold BufferReader.bindM at 1.
  pose proof (read_inv 4 br2) as Hinv.
  destruct (BufferReader.read 4 br2) as [[b br3] | e]; [| discriminate].
  unfold BufferReader.ret. intros H. injection H as <- <-.
  cbn [branchLen branchHashes branchSideMask].
  destruct Hinv as (_ & Ebuf & Epos & _).
  destruct (for_push_readReverse _ _ _ _ Hxs) as (Ebuf' & Epos' & Hcontent).
  destruct (for_push_inv (fun x : bytes => length x = 32%nat)
              (BufferReader.readReverse 32)) with (n := Z.to_nat n) (br := br1)
    (xs := xs) (br' := br2) as (Hlen & Hall).
  { intros r x r'. unfold BufferReader.readReverse, BufferReader.bindM.
    destruct (BufferReader.read 32 r) as [[c r1] | e] eqn:Hc; [| discriminate].
    unfold BufferReader.ret. intros H. injection H as <- _.
    rewrite length_rev. exact (read_length 32 32 r r1 c eq_refl Hc). }
  { exact Hxs. }
  exists br1.
  split; [reflexivity | split; [exact Hlen | split; [exact Hall |]]].
  split; [exact Hcontent | split; [apply ToInt32_is_int32 |]].
  split; [congruence | lia].
Qed.

(** A Merkle branch that parses holds as many hashes as its count says,
    none for a count that is not positive; the hashes are the 32-byte groups
    that follow the count in the buffer, each one reversed; the side mask is
    a signed 32-bit value; and the reader ends 4 bytes behind the hashes,
    over the same buffer. *)
Theorem merkleBranch_shape (br br' : BufferReader.t) (mb : MerkleBranch) :
  merkleBranch readVarintNum br = Ok (mb, br') ->
  exists br1,
    readVarintNum br = Ok (branchLen mb, br1)
    /\ length (branchHashes mb) = Z.to_nat (branchLen mb)
    /\ Forall (fun x => length x = 32%nat) (branchHashes mb)
    /\ List.concat (map (@rev byte) (branchHashes mb))
       = firstn (32 * Z.to_nat (branchLen mb))
           (skipn (Z.to_nat (BufferReader.pos br1)) (BufferReader.buf br1))
    /\ is_int32 (branchSideMask mb) = true
    /\ BufferReader.buf br' = BufferReader.buf br1
    /\ BufferReader.pos br'
       = BufferReader.pos br1 + 32 * Z.max 0 (branchLen mb) + 4.
Proof. exact (merkleBranch_decoded br br' mb). Qed.

Lemma be_value_marker (b : bytes) :
  length b = 2%nat -> (be_value b = 1 <-> b = [Byte.x00; Byte.x01]).
Proof.
  intros Hlen.
  destruct b as [| x [| y [| z r]]]; try discriminate.
  unfold be_value. cbn [rev app le_value].
  pose proof (Z_of_byte_range x) as Hx. pose proof (Z_of_byte_range y) as Hy.
  split.
  - intros H.
    assert (Ex : Z_of_byte x = 0) by lia.
    assert (Ey : Z_of_byte y = 1) by lia.
    rewrite <- (byte_of_Z_of_byte x), <- (byte_of_Z_of_byte y), Ex, Ey. reflexivity.
  - intros H. injection H as -> ->. reflexivity.
Qed.

Lemma getTxIn_shape (br br' : BufferReader.t) (i : TxIn) :
  getTxIn readVarintNum br = Ok (i, br') -> txIn_shape i.
Proof.
  unfold getTxIn, BufferReader.readUInt32LE, BufferReader.bindM.
  destruct (BufferReader.read 32 br) as [[h br1] | e] eqn:Hh; [| discriminate].
  destruct (BufferReader.read 4 br1) as [[ix br2] | e] eqn:Hix; [| discriminate].
  destruct (readVarintNum br2) as [[n br3] | e]; [| discriminate].
  pose proof (read_inv n br3) as Hs.
  destruct (BufferReader.read n br3) as [[sc br4] | e]; [| discriminate].
  destruct (BufferReader.read 4 br4) as [[sq br5] | e] eqn:Hsq; [| discriminate].
  unfold BufferReader.ret. intros H. injection H as <- _.
  unfold txIn_shape. cbn [prevOutput po_hash po_index in_script in_scriptLen sequence].
  split; [exact (read_length 32 32 _ _ _ eq_refl Hh) |].
  split; [exact (read_length 4 4 _ _ _ eq_refl Hix) |].
  split; [exact (proj1 Hs) |].
  apply le_value_is_uint32. exact (read_length 4 4 _ _ _ eq_refl Hsq).
Qed.

Lemma getTxOut_shape (br br' : BufferReader.t) (o : TxOut) :
  getTxOut readVarintNum Script_accepts br = Ok (o, br') -> txOut_shape o.
Proof.
  unfold getTxOut, BufferReader.bindM.
  destruct (BufferReader.read 8 br) as [[v br1] | e] eqn:Hv; [| discriminate].
  destruct (readVarintNum br1) as [[n br2] | e]; [| discriminate].
  pose proof (read_inv n br2) as Hs.
  destruct (BufferReader.read n br2) as [[sc br3] | e]; [| discriminate].
  unfold BufferReader.lift, Script_new.
  destruct (Script_accepts sc); [| discriminate].
  unfold BufferReader.ret. intros H. injection H as <- _.
  unfold txOut_shape. cbn [value out_script out_scriptLen script_bytes].
  split; [exact (read_length 8 8 _ _ _ eq_refl Hv) | exact (proj1 Hs)].
Qed.

(** What a parsed coinbase transaction holds. *)
Lemma getTxn_decoded (br br' : BufferReader.t) (tx : Txn) :
  getTxn readVarintNum Script_accepts br = Ok (tx, br') ->
  is_int32 (tx_version tx) = true
  /\ (flag tx = 0 \/ flag tx = 1)
  /\ (flag tx = 1
      <-> firstn 2 (skipn (Z.to_nat (BufferReader.pos br + 4)) (BufferReader.buf br))
          = [Byte.x00; Byte.x01])
  /\ length (txIn tx) = Z.to_nat (txInCount tx)
  /\ length (txOut tx) = Z.to_nat (txOutCount tx)
  /\ Forall txIn_shape (txIn tx)
  /\ Forall txOut_shape (txOut tx)
  /\ (flag tx = 0 -> txWitnesses tx = [])
  /\ is_uint32 (lockTime tx) = true
  /\ (txIn tx = [] -> txWitnesses tx = []).
Proof.
  unfold getTxn. unfold BufferReader.bindM at 1. unfold BufferReader.readInt32LE.
  unfold BufferReader.bindM at 1.
  pose proof (read_inv 4 br) as Hv.
  destruct (BufferReader.read 4 br) as [[vb br1] | e]; [| discriminate].
  destruct Hv as (_ & Ebuf & Epos & _).
  unfold BufferReader.ret at 1. unfold BufferReader.bindM at 1.
  unfold BufferReader.peekUInt16BE.
  destruct (BufferReader.peek 2 br1) as [mk2 | e] eqn:Hpeek; [| discriminate].
  assert (Hread : BufferReader.read 2 br1
                  = Ok (mk2, BufferReader.mk (BufferReader.buf br1)
                               (BufferReader.pos br1 + 2))).
  { unfold BufferReader.read. rewrite Hpeek. reflexivity. }
  assert (Hmk : mk2 = firstn 2 (skipn (Z.to_nat (BufferReader.pos br + 4))
                                  (BufferReader.buf br))
                /\ length mk2 = 2%nat).
  { split; [| exact (read_length 2 2 _ _ _ eq_refl Hread)].
    rewrite (read_content 2 _ _ _ Hread), Ebuf, Epos. reflexivity. }
  destruct Hmk as (Emk & Lmk).
  pose proof (be_value_marker mk2 Lmk) as Hmarker. rewrite Emk in Hmarker at 2.
  unfold BufferReader.bindM at 1.
  assert (Hflag : exists br2,
            (if be_value mk2 =? 1 then BufferReader.readUInt16BE else BufferReader.ret 0) br1
            = Ok (if be_value mk2 =? 1 then 1 else 0, br2)).
  { destruct (Z.eqb_spec (be_value mk2) 1) as [E1 | _].
    - unfold BufferReader.readUInt16BE, BufferReader.bindM, BufferReader.read.
      rewrite Hpeek. unfold BufferReader.ret. rewrite E1. eexists. reflexivity.
    - eexists. reflexivity. }
  destruct Hflag as (br2 & ->).
  set (fl := if be_value mk2 =? 1 then 1 else 0).
  assert (Hfl : (fl = 0 \/ fl = 1) /\ (fl = 1 <-> be_value mk2 = 1)).
  { unfold fl. destruct (Z.eqb_spec (be_value mk2) 1) as [E | E].
    - split; [right; reflexivity | split; intros _; [exact E | reflexivity]].
    - split; [left; reflexivity | split; [discriminate | intros E'; contradiction]]. }
  unfold BufferReader.bindM at 1.
  destruct (readVarintNum br2) as [[nin br3] | e]; [| discriminate].
  unfold BufferReader.bindM at 1.
  destruct (BufferReader.for_push (Z.to_nat nin) (getTxIn readVarintNum) br3)
    as [[ins br4] | e] eqn:Hins; [| discriminate].
  unfold BufferReader.bindM at 1.
  destruct (readVarintNum br4) as [[nout br5] | e]; [| discriminate].
  unfold BufferReader.bindM at 1.
  destruct (BufferReader.for_push (Z.to_nat nout) (getTxOut readVarintNum Script_accepts) br5)
    as [[outs br6] | e] eqn:Houts; [| discriminate].
  unfold BufferReader.bindM at 1.
  destruct ((if JS.truthy fl
             then BufferReader.bindM
                    (BufferReader.for_push (Z.to_nat nin) (getComponents readVarintNum))
                    (fun per_input => BufferReader.ret (List.concat per_input))
             else BufferReader.ret []) br6) as [[wit br7] | e] eqn:Hwit; [| discriminate].
  unfold BufferReader.readUInt32LE. unfold BufferReader.bindM.
  destruct (BufferReader.read 4 br7) as [[lt br8] | e] eqn:Hlt; [| discriminate].
  unfold BufferReader.ret. intros H. injection H as <- _.
  cbn [tx_version flag txInCount txIn txOutCount txOut txWitnesses lockTime].
  destruct (for_push_inv txIn_shape (getTxIn readVarintNum)
              (fun r x r' => getTxIn_shape r r' x)
              _ _ _ _ Hins) as (Lin & Ain).
  destruct (for_push_inv txOut_shape (getTxOut readVarintNum Script_accepts)
              (fun r x r' => getTxOut_shape r r' x)
              _ _ _ _ Houts) as (Lout & Aout).
  split; [apply ToInt32_is_int32 |].
  split; [exact (proj1 Hfl) |].
  split; [rewrite (proj2 Hfl); exact Hmarker |].
  split; [exact Lin | split; [exact Lout | split; [exact Ain | split; [exact Aout |]]]].
  split; [| split].
  - intros F0. rewrite F0 in Hwit. cbn in Hwit. unfold BufferReader.ret in Hwit.
    injection Hwit as <- _. reflexivity.
  - apply le_value_is_uint32. exact (read_length 4 4 _ _ _ eq_refl Hlt).
  - intros Hnone. rewrite Hnone in Lin. cbn [length] in Lin. rewrite <- Lin in Hwit.
    destruct (JS.truthy fl); cbn in Hwit; unfold BufferReader.ret in Hwit;
      injection Hwit as <- _; reflexivity.
Qed.


(** A coinbase transaction that parses: its flag is 0 or 1, and 1 exactly
    when the two bytes behind the version are 00 01 -- which a transaction
    without witnesses, no input and one output also starts with; it holds
    as many inputs and outputs as its counts say, each of the parsed shape;
    without the flag it holds no witness data; version and lock time are
    32-bit values. *)
Theorem getTxn_shape (br br' : BufferReader.t) (tx : Txn) :
  getTxn readVarintNum Script_accepts br = Ok (tx, br') ->
  is_int32 (tx_version tx) = true
  /\ (flag tx = 0 \/ flag tx = 1)
  /\ (flag tx = 1
      <-> firstn 2 (skipn (Z.to_nat (BufferReader.pos br + 4)) (BufferReader.buf br))
          = [Byte.x00; Byte.x01])
  /\ length (txIn tx) = Z.to_nat (txInCount tx)
  /\ length (txOut tx) = Z.to_nat (txOutCount tx)
  /\ Forall txIn_shape (txIn tx)
  /\ Forall txOut_shape (txOut tx)
  /\ (flag tx = 0 -> txWitnesses tx = [])
  /\ is_uint32 (lockTime tx) = true.
Proof.
  intros H.
  destruct (getTxn_decoded br br' tx H)
    as (H1 & H2 & H3 & H4 & H5 & H6 & H7 & H8 & H9 & _).
  repeat (split; [assumption |]). assumption.
Qed.

End ParseShape.

Lemma merkleBranch_shape_witness :
  exists mb br',
    merkleBranch compactSize
      (BufferReader.mk ([Byte.x01] ++ zeros 32 ++ zeros 4) 0) = Ok (mb, br')
    /\ length (branchHashes mb) = Z.to_nat (branchLen mb)
    /\ BufferReader.pos br' = 1 + 32 * Z.max 0 (branchLen mb) + 4.
Proof.
  destruct (merkleBranch compactSize
              (BufferReader.mk ([Byte.x01] ++ zeros 32 ++ zeros 4) 0))
    as [[mb br'] | e] eqn:Hmb; [| vm_compute in Hmb; discriminate].
  destruct (merkleBranch_shape compactSize _ br' mb Hmb)
    as (br1 & Hrv & Hlen & _ & _ & _ & _ & Hpos).
  exists mb, br'. split; [reflexivity | split; [exact Hlen |]].
  vm_compute in Hrv. injection Hrv as _ <-. exact Hpos.
Defined.

Lemma getTxn_shape_witness :
  exists tx br',
    getTxn compactSize any_script
      (BufferReader.mk ([Byte.x01; Byte.x00; Byte.x00; Byte.x00]
                        ++ [Byte.x00; Byte.x01] ++ [Byte.x00] ++ [Byte.x00]
                        ++ zeros 4) 0) = Ok (tx, br')
    /\ flag tx = 1.
Proof.
  destruct (getTxn compactSize any_script
              (BufferReader.mk ([Byte.x01; Byte.x00; Byte.x00; Byte.x00]
                                ++ [Byte.x00; Byte.x01] ++ [Byte.x00] ++ [Byte.x00]
                                ++ zeros 4) 0))
    as [[tx br'] | e] eqn:Htx; [| vm_compute in Htx; discriminate].
  destruct (getTxn_shape compactSize any_script _ br' tx Htx) as (_ & _ & Hflag & _).
  exists tx, br'. split; [reflexivity |].
  apply (proj2 Hflag). reflexivity.
Defined.

Section Payload.

Variable sha256sha256 : bytes -> bytes.
Variable AuxPow_toBufferWriter : AuxPow -> BufferWriter.t -> result BufferWriter.t.
Variable readVarintNum : BufferReader.M Z.
Variable Script_accepts : bytes -> bool.

Local Abbreviation construct := (newBlockHeader sha256sha256 AuxPow_toBufferWriter readVarintNum).

(** A payload that parses: its block hash has 32 bytes, and its parent
    block is a header without the AuxPoW bit and without a payload of its
    own, with fields in range, that encodes back to the 80 bytes the parse
    read last -- the bytes [validProofOfWork] hands to scrypt. *)
Theorem parseAuxPoW_parent_block (br br' : BufferReader.t) (a : AuxPow) :
  parseAuxPoW readVarintNum Script_accepts (fun b => construct (ArgBuffer b)) br
  = Ok (a, br') ->
  length (blockHash a) = 32%nat
  /\ isAuxPow (parentBlock a) = false
  /\ _auxpow (parentBlock a) = None
  /\ fields_ok (parentBlock a)
  /\ toBuffer AuxPow_toBufferWriter (parentBlock a) true
     = Ok (firstn 80 (skipn (Z.to_nat (BufferReader.pos br' - 80)) (BufferReader.buf br'))).
Proof.
  unfold parseAuxPoW. unfold BufferReader.bindM.
  destruct (getTxn readVarintNum Script_accepts br) as [[tx br1] | e]; [| discriminate].
  destruct (BufferReader.read 32 br1) as [[bh br2] | e] eqn:Hbh; [| discriminate].
  destruct (merkleBranch readVarintNum br2) as [[cb br3] | e]; [| discriminate].
  destruct (merkleBranch readVarintNum br3) as [[bb br4] | e]; [| discriminate].
  pose proof (read_inv 80 br4) as H80.
  destruct (BufferReader.read 80 br4) as [[pb br5] | e] eqn:Hpb; [| discriminate].
  destruct H80 as (Hlen & Ebuf & Epos & Hpos & _).
  unfold BufferReader.lift, BufferReader.ret.
  destruct (construct (ArgBuffer pb)) as [parent | e] eqn:Hctor; [| discriminate].
  intros H. injection H as <- <-.
  cbn [blockHash parentBlock].
  rewrite newBlockHeader_parent in Hctor by exact Hlen.
  destruct (flagged (wire_version pb)) eqn:Hflag; [discriminate |].
  injection Hctor as <-.
  assert (Hok : fields_ok (assign_fields (fixed_info pb None))).
  { apply fields_ok_fixed. lia. }
  split; [exact (read_length 32 32 _ _ _ eq_refl Hbh) |].
  split; [rewrite isAuxPow_assign; exact Hflag |].
  split; [reflexivity | split; [exact Hok |]].
  rewrite toBuffer_fixed; [| exact Hok | rewrite isAuxPow_assign, Hflag; reflexivity].
  rewrite fixed_bytes_decoded by lia.
  rewrite Ebuf, Epos.
  replace (BufferReader.pos br4 + 80 - 80) with (BufferReader.pos br4) by lia.
  pose proof (read_content 80 br4 br5 pb Hpb) as Hc.
  change (Z.to_nat 80) with 80%nat in Hc. rewrite <- Hc.
  rewrite firstn_all2; [reflexivity |]. unfold blen in Hlen. lia.
Qed.

End Payload.

Lemma parseAuxPoW_parent_block_witness :
  exists a br',
    parseAuxPoW compactSize any_script
      (fun b => newBlockHeader toy_digest toy_payload_writer compactSize (ArgBuffer b))
      (BufferReader.mk auxpow_buffer 80) = Ok (a, br')
    /\ toBuffer toy_payload_writer (parentBlock a) true = Ok plain_header_bytes.
Proof.
  destruct (parseAuxPoW compactSize any_script
              (fun b => newBlockHeader toy_digest toy_payload_writer compactSize (ArgBuffer b))
              (BufferReader.mk auxpow_buffer 80))
    as [[a br'] | e] eqn:Hp; [| vm_compute in Hp; discriminate].
  destruct (parseAuxPoW_parent_block toy_digest toy_payload_writer compactSize any_script
              _ br' a Hp) as (_ & _ & _ & _ & Henc).
  exists a, br'. split; [reflexivity |].
  rewrite Henc. vm_compute in Hp. injection Hp as _ <-. reflexivity.
Defined.

(** ** Encoding and decoding back: the payload *)

Lemma Z_of_byte_of_Z (z : Z) : Z_of_byte (byte_of_Z z) = z mod 256.
Proof.
  unfold byte_of_Z, Z_of_byte.
  pose proof (Z.mod_pos_bound z 256 ltac:(lia)) as Hm.
  destruct (Byte.of_N (Z.to_N (z mod 256))) as [b |] eqn:Hb.
  - apply Byte.to_of_N in Hb. rewrite Hb. lia.
  - apply Byte.of_N_None_iff in Hb. lia.
Qed.

Lemma le_value_le_bytes (n : nat) :
  forall z, le_value (le_bytes n z) = z mod 256 ^ Z.of_nat n.
Proof.
  induction n as [| n IH]; intros z.
  - cbn [le_bytes le_value]. rewrite Z.pow_0_r, Z.mod_1_r. reflexivity.
  - cbn [le_bytes le_value]. rewrite IH, Z_of_byte_of_Z.
    rewrite Nat2Z.inj_succ, Z.pow_succ_r by lia.
    assert (Hpos : 0 < 256 ^ Z.of_nat n) by (apply Z.pow_pos_nonneg; lia).
    rewrite Z.rem_mul_r by lia. reflexivity.
Qed.

Lemma is_int32_range (v : Z) : is_int32 v = true -> - 2 ^ 31 <= v < 2 ^ 31.
Proof. unfold is_int32. rewrite andb_true_iff, Z.leb_le, Z.ltb_lt. tauto. Qed.

Lemma is_uint32_range (v : Z) : is_uint32 v = true -> 0 <= v < 2 ^ 32.
Proof. unfold is_uint32. rewrite andb_true_iff, Z.leb_le, Z.ltb_lt. tauto. Qed.

Lemma blen_app (a b : bytes) : blen (a ++ b) = blen a + blen b.
Proof. unfold blen. rewrite length_app. lia. Qed.

Lemma blen_nonneg (b : bytes) : 0 <= blen b.
Proof. unfold blen. lia. Qed.

(** *** Reads that take exactly the bytes written *)

Lemma read_at (len : Z) (pre bs post : bytes) :
  blen bs = len ->
  BufferReader.read len (BufferReader.mk (pre ++ bs ++ post) (blen pre))
  = Ok (bs, BufferReader.mk (pre ++ bs ++ post) (blen pre + len)).
Proof.
  intros Hlen. pose proof (blen_nonneg pre) as Hpre. pose proof (blen_nonneg bs) as Hbs.
  rewrite read_ok; [| lia | lia | rewrite !blen_app; pose proof (blen_nonneg post); lia].
  f_equal. f_equal. unfold blen in *. rewrite Nat2Z.id.
  rewrite skipn_app, skipn_all, Nat.sub_diag. cbn [skipn app].
  replace (Z.to_nat len) with (length bs) by lia.
  rewrite firstn_app, firstn_all, Nat.sub_diag. cbn [firstn]. apply app_nil_r.
Qed.

Lemma reads_ret {A : Type} (x : A) : reads (BufferReader.ret x) [] x.
Proof.
  intros pre post. unfold BufferReader.ret.
  change (blen []) with 0. rewrite Z.add_0_r. reflexivity.
Qed.

Lemma reads_bind {A B : Type} (m : BufferReader.M A) (k : A -> BufferReader.M B)
    (bs1 bs2 : bytes) (x : A) (y : B) :
  reads m bs1 x -> reads (k x) bs2 y -> reads (BufferReader.bindM m k) (bs1 ++ bs2) y.
Proof.
  intros H1 H2 pre post. unfold BufferReader.bindM.
  rewrite <- (app_assoc bs1 bs2 post). rewrite (H1 pre (bs2 ++ post)).
  pose proof (H2 (pre ++ bs1) post) as H. rewrite <- app_assoc, blen_app in H.
  rewrite H. rewrite blen_app, Z.add_assoc. reflexivity.
Qed.

(** The last read of a sequence, its value handed on. *)
Lemma reads_last {A B : Type} (m : BufferReader.M A) (f : A -> B) (bs : bytes) (x : A) :
  reads m bs x ->
  reads (BufferReader.bindM m (fun a => BufferReader.ret (f a))) bs (f x).
Proof.
  intros H. rewrite <- (app_nil_r bs).
  apply reads_bind with (x := x); [exact H | apply reads_ret].
Qed.

Lemma reads_then {A B : Type} (m : BufferReader.M A) (k : A -> BufferReader.M B)
    (bs : bytes) (x : A) (y : B) :
  reads m bs x -> reads (k x) [] y -> reads (BufferReader.bindM m k) bs y.
Proof.
  intros H1 H2. rewrite <- (app_nil_r bs). exact (reads_bind m k bs [] x y H1 H2).
Qed.

Lemma reads_read (len : Z) (bs : bytes) :
  blen bs = len -> reads (BufferReader.read len) bs bs.
Proof.
  intros Hlen pre post. rewrite (read_at len pre bs post Hlen). rewrite Hlen. reflexivity.
Qed.

Lemma reads_readReverse (len : Z) (bs : bytes) :
  blen bs = len -> reads (BufferReader.readReverse len) bs (rev bs).
Proof.
  intros Hlen. unfold BufferReader.readReverse.
  apply (reads_last (BufferReader.read len) (@rev byte)). apply reads_read. exact Hlen.
Qed.

Lemma blen_le_bytes (n : nat) (z : Z) : blen (le_bytes n z) = Z.of_nat n.
Proof. unfold blen. rewrite le_bytes_length. reflexivity. Qed.

Lemma reads_readInt32LE (v : Z) :
  is_int32 v = true -> reads BufferReader.readInt32LE (le_bytes 4 v) v.
Proof.
  intros Hv. apply is_int32_range in Hv.
  unfold BufferReader.readInt32LE.
  replace v with (JS.ToInt32 (le_value (le_bytes 4 v))) at 2.
  - apply (reads_last (BufferReader.read 4) (fun b => JS.ToInt32 (le_value b))).
    apply reads_read. apply blen_le_bytes.
  - rewrite le_value_le_bytes. change (256 ^ Z.of_nat 4) with (2 ^ 32).
    rewrite <- (ToInt32_small v Hv) at 2.
    unfold JS.ToInt32. rewrite Z.mod_mod by lia. reflexivity.
Qed.

Lemma reads_readUInt32LE (v : Z) :
  is_uint32 v = true -> reads BufferReader.readUInt32LE (le_bytes 4 v) v.
Proof.
  intros Hv. apply is_uint32_range in Hv.
  unfold BufferReader.readUInt32LE.
  replace v with (le_value (le_bytes 4 v)) at 2.
  - apply (reads_last (BufferReader.read 4) le_value).
    apply reads_read. apply blen_le_bytes.
  - rewrite le_value_le_bytes. change (256 ^ Z.of_nat 4) with (2 ^ 32).
    apply Z.mod_small. exact Hv.
Qed.

Lemma reads_lift {A : Type} (x : A) : reads (BufferReader.lift (Ok x)) [] x.
Proof. exact (reads_ret x). Qed.

Lemma reads_for_push {A : Type} (body : BufferReader.M A) (f : A -> bytes) (xs : list A) :
  Forall (fun x => reads body (f x) x) xs ->
  reads (BufferReader.for_push (length xs) body) (List.concat (map f xs)) xs.
Proof.
  induction 1 as [| x l Hx Hl IH]; cbn [length map List.concat BufferReader.for_push].
  - apply reads_ret.
  - apply reads_bind with (x := x); [exact Hx |].
    apply (reads_last (BufferReader.for_push (length l) body) (cons x)). exact IH.
Qed.

(** *** The decoder reads what the encoder writes *)

Section PayloadRoundtrip.

Variable readVarintNum : BufferReader.M Z.
Variable writeVarintNum : Z -> bytes.

Local Abbreviation mirror := (mirrored readVarintNum writeVarintNum).

Lemma reads_getTxIn (i : TxIn) :
  txIn_shape i -> mirror (in_scriptLen i) ->
  reads (getTxIn readVarintNum) (txIn_bytes writeVarintNum i) i.
Proof.
  destruct i as [[h ix] n sc sq]. unfold txIn_shape, txIn_bytes.
  cbn [prevOutput po_hash po_index in_scriptLen in_script sequence].
  intros (Hh & Hix & Hsc & Hsq) Hn. unfold getTxIn.
  apply reads_bind with (x := h); [apply reads_read; unfold blen; lia |].
  apply reads_bind with (x := ix); [apply reads_read; unfold blen; lia |].
  apply reads_bind with (x := n); [exact Hn |].
  apply reads_bind with (x := sc); [apply reads_read; exact Hsc |].
  apply (reads_last BufferReader.readUInt32LE
           (fun s => MkTxIn (MkPrevOutput h ix) n sc s)).
  apply reads_readUInt32LE. exact Hsq.
Qed.

Lemma reads_getTxOut (o : TxOut) :
  txOut_shape o -> mirror (out_scriptLen o) ->
  reads (getTxOut readVarintNum any_script) (txOut_bytes writeVarintNum o) o.
Proof.
  destruct o as [v n [sc]]. unfold txOut_shape, txOut_bytes.
  cbn [value out_scriptLen out_script script_bytes].
  intros (Hv & Hsc) Hn. unfold getTxOut.
  apply reads_bind with (x := v); [apply reads_read; unfold blen; lia |].
  apply reads_bind with (x := n); [exact Hn |].
  apply reads_then with (x := sc); [apply reads_read; exact Hsc |].
  apply (reads_last (BufferReader.lift (Ok (MkScript sc))) (fun s => MkTxOut v n s)).
  apply reads_lift.
Qed.

Lemma reads_component (c : bytes) :
  mirror (blen c) ->
  reads (BufferReader.bindM readVarintNum (fun componentLen => BufferReader.read componentLen))
    (component_bytes writeVarintNum c) c.
Proof.
  intros Hc. unfold component_bytes.
  apply reads_bind with (x := blen c); [exact Hc | apply reads_read; reflexivity].
Qed.

(** One input's stack holding all the components, and an empty stack. *)
Lemma reads_getComponents (w : list bytes) :
  mirror (Z.of_nat (length w)) ->
  Forall (fun c => mirror (blen c)) w ->
  reads (getComponents readVarintNum)
    (writeVarintNum (Z.of_nat (length w))
     ++ List.concat (map (component_bytes writeVarintNum) w)) w.
Proof.
  intros Hn Hw. unfold getComponents.
  apply reads_bind with (x := Z.of_nat (length w)); [exact Hn |].
  rewrite Nat2Z.id. apply reads_for_push.
  apply Forall_impl with (2 := Hw). intros c Hc. apply reads_component. exact Hc.
Qed.

Lemma reads_getComponents_none :
  mirror 0 -> reads (getComponents readVarintNum) (writeVarintNum 0) [].
Proof.
  intros H0. pose proof (reads_getComponents [] H0 (Forall_nil _)) as H.
  cbn [length map List.concat] in H. rewrite app_nil_r in H. exact H.
Qed.

Lemma concat_repeat_nil {A : Type} (n : nat) : List.concat (repeat (@nil A) n) = [].
Proof. induction n as [| n IH]; [reflexivity | exact IH]. Qed.

Lemma reads_witnesses (k : nat) (w : list bytes) :
  (k = 0%nat -> w = []) ->
  mirror (Z.of_nat (length w)) -> mirror 0 ->
  Forall (fun c => mirror (blen c)) w ->
  reads (BufferReader.bindM (BufferReader.for_push k (getComponents readVarintNum))
           (fun per_input => BufferReader.ret (List.concat per_input)))
    (witness_bytes writeVarintNum k w) w.
Proof.
  intros Hk Hn H0 Hw. destruct k as [| others].
  - rewrite (Hk eq_refl). cbn [witness_bytes BufferReader.for_push].
    apply reads_then with (x := @nil (list bytes)); apply reads_ret.
  - unfold witness_bytes.
    assert (Hrest : reads (BufferReader.for_push others (getComponents readVarintNum))
                      (List.concat (repeat (writeVarintNum 0) others))
                      (repeat [] others)).
    { pose proof (reads_for_push (getComponents readVarintNum)
                    (fun _ : list bytes => writeVarintNum 0) (repeat [] others)) as H.
      rewrite repeat_length, map_repeat in H. apply H.
      apply Forall_forall. intros x Hx. apply repeat_spec in Hx. subst x.
      apply reads_getComponents_none. exact H0. }
    assert (Hloop : reads (BufferReader.for_push (S others) (getComponents readVarintNum))
                      (writeVarintNum (Z.of_nat (length w))
                       ++ List.concat (map (component_bytes writeVarintNum) w)
                       ++ List.concat (repeat (writeVarintNum 0) others))
                      (w :: repeat [] others)).
    { cbn [BufferReader.for_push]. rewrite app_assoc.
      apply reads_bind with (x := w); [apply reads_getComponents; assumption |].
      apply (reads_last (BufferReader.for_push others (getComponents readVarintNum))
               (cons w)). exact Hrest. }
    pose proof (reads_last _ (@List.concat bytes) _ _ Hloop) as H.
    cbn [List.concat] in H. rewrite concat_repeat_nil, app_nil_r in H. exact H.
Qed.

Lemma reads_merkleBranch (mb : MerkleBranch) :
  length (branchHashes mb) = Z.to_nat (branchLen mb) ->
  Forall (fun x => length x = 32%nat) (branchHashes mb) ->
  is_int32 (branchSideMask mb) = true ->
  mirror (branchLen mb) ->
  reads (merkleBranch readVarintNum) (branch_bytes writeVarintNum mb) mb.
Proof.
  destruct mb as [n hs mask]. cbn [branchLen branchHashes branchSideMask].
  intros Hlen Hall Hmask Hn. unfold merkleBranch, branch_bytes.
  cbn [branchLen branchHashes branchSideMask].
  apply reads_bind with (x := n); [exact Hn |].
  apply reads_bind with (x := hs).
  - rewrite <- Hlen.
    pose proof (reads_for_push (BufferReader.readReverse 32) (@rev byte) hs) as H.
    apply H. apply Forall_impl with (2 := Hall). intros x Hx.
    rewrite <- (rev_involutive x) at 2. apply reads_readReverse.
    unfold blen. rewrite length_rev, Hx. reflexivity.
  - apply (reads_last BufferReader.readInt32LE (fun m => MkMerkleBranch n hs m)).
    apply reads_readInt32LE. exact Hmask.
Qed.

Lemma Forall_and {A : Type} (P Q : A -> Prop) (l : list A) :
  Forall P l -> Forall Q l -> Forall (fun x => P x /\ Q x) l.
Proof.
  intros HP. induction HP as [| x l Hx Hl IH]; intros HQ; [constructor |].
  inversion HQ; subst. constructor; [split; assumption | apply IH; assumption].
Qed.

(** What follows the version and the flag, read back. *)
Lemma reads_txn_body (t : Txn) :
  txn_shape t -> txn_mirrored readVarintNum writeVarintNum t ->
  reads
    (txInCount <~ readVarintNum ;;
     txIn <~ BufferReader.for_push (Z.to_nat txInCount) (getTxIn readVarintNum) ;;
     txOutCount <~ readVarintNum ;;
     txOut <~ BufferReader.for_push (Z.to_nat txOutCount)
                (getTxOut readVarintNum any_script) ;;
     txWitnesses <~
       (if JS.truthy (flag t)
        then
          per_input <~ BufferReader.for_push (Z.to_nat txInCount)
                         (getComponents readVarintNum) ;;
          BufferReader.ret (List.concat per_input)
        else BufferReader.ret []) ;;
     lockTime <~ BufferReader.readUInt32LE ;;
     BufferReader.ret
       (MkTxn (tx_version t) (flag t) txInCount txIn txOutCount txOut txWitnesses
          lockTime))
    (txn_body writeVarintNum t) t.
Proof.
  destruct t as [v fl nin ins nout outs wit lt]. unfold txn_shape, txn_mirrored, txn_body.
  cbn [tx_version flag txInCount txIn txOutCount txOut txWitnesses lockTime].
  intros (Hv & Hfl & Lin & Lout & Sin & Sout & Hw0 & Hlt & Hnone)
         (Min & Mins & Mout & Mouts & Mwit).
  apply reads_bind with (x := nin); [exact Min |].
  apply reads_bind with (x := ins).
  { rewrite <- Lin. apply reads_for_push.
    apply Forall_impl with (2 := Forall_and _ _ _ Sin Mins).
    intros i (Hs & Hm). apply reads_getTxIn; assumption. }
  apply reads_bind with (x := nout); [exact Mout |].
  apply reads_bind with (x := outs).
  { rewrite <- Lout. apply reads_for_push.
    apply Forall_impl with (2 := Forall_and _ _ _ Sout Mouts).
    intros o (Hs & Hm). apply reads_getTxOut; assumption. }
  apply reads_bind with (x := wit).
  { destruct Hfl as [-> | ->].
    - rewrite (Hw0 eq_refl). apply reads_ret.
    - destruct (Mwit eq_refl) as (Mn & M0 & Mc).
      apply reads_witnesses; try assumption.
      intros Hk. apply Hnone. rewrite <- Lin in Hk.
      destruct ins; [reflexivity | discriminate]. }
  apply (reads_last BufferReader.readUInt32LE
           (fun l => MkTxn v fl nin ins nout outs wit l)).
  apply reads_readUInt32LE. exact Hlt.
Qed.

Lemma reads_at {A : Type} (m : BufferReader.M A) (bs : bytes) (x : A) :
  reads m bs x ->
  forall buf p pre post,
    buf = pre ++ bs ++ post -> p = blen pre ->
    m (BufferReader.mk buf p) = Ok (x, BufferReader.mk buf (p + blen bs)).
Proof. intros H buf p pre post -> ->. apply H. Qed.

Lemma peek_at (len : Z) (buf : bytes) (p : Z) (pre bs post : bytes) :
  buf = pre ++ bs ++ post -> p = blen pre -> blen bs = len ->
  BufferReader.peek len (BufferReader.mk buf p) = Ok bs.
Proof.
  intros -> -> Hlen. pose proof (read_at len pre bs post Hlen) as H.
  unfold BufferReader.read in H.
  destruct (BufferReader.peek len _) as [b | e]; [| discriminate].
  injection H as ->. reflexivity.
Qed.

Lemma txn_body_length (t : Txn) : (4 <= length (txn_body writeVarintNum t))%nat.
Proof.
  unfold txn_body. rewrite !length_app, le_bytes_length. lia.
Qed.

Lemma reads_getTxn (t : Txn) :
  txn_shape t -> txn_mirrored readVarintNum writeVarintNum t -> well_marked writeVarintNum t ->
  reads (getTxn readVarintNum any_script) (txn_bytes writeVarintNum t) t.
Proof.
  intros Hshape Hmirror Hmark pre post.
  pose proof (reads_txn_body t Hshape Hmirror) as Hbody.
  pose proof (txn_body_length t) as Hblen.
  destruct Hshape as (Hv & Hfl & _).
  unfold txn_bytes.
  set (body := txn_body writeVarintNum t) in *.
  unfold getTxn. unfold BufferReader.bindM at 1.
  assert (Hver : forall rest,
            BufferReader.readInt32LE
              (BufferReader.mk (pre ++ le_bytes 4 (tx_version t) ++ rest) (blen pre))
            = Ok (tx_version t,
                  BufferReader.mk (pre ++ le_bytes 4 (tx_version t) ++ rest)
                    (blen pre + 4))).
  { intros rest. exact (reads_readInt32LE (tx_version t) Hv pre rest). }
  destruct Hfl as [Hfl | Hfl].
  - (* no flag: the two bytes behind the version are the body's, not 00 01 *)
    rewrite Hfl in *. cbn [JS.truthy Z.eqb negb app] in *.
    rewrite <- app_assoc. rewrite Hver.
    unfold BufferReader.bindM at 1. unfold BufferReader.peekUInt16BE.
    rewrite (peek_at 2 _ _ (pre ++ le_bytes 4 (tx_version t)) (firstn 2 body)
               (skipn 2 body ++ post)).
    + assert (Hne : (be_value (firstn 2 body) =? 1) = false).
      { apply Z.eqb_neq. intros H1.
        apply be_value_marker in H1; [exact (Hmark Hfl H1) |].
        rewrite length_firstn. lia. }
      unfold BufferReader.bindM at 1. rewrite Hne.
      unfold BufferReader.ret at 1.
      rewrite (reads_at _ _ _ Hbody _ _ (pre ++ le_bytes 4 (tx_version t)) post).
      * f_equal. f_equal. f_equal. rewrite blen_app, blen_le_bytes. lia.
      * rewrite <- app_assoc. reflexivity.
      * rewrite blen_app, blen_le_bytes. reflexivity.
    + rewrite <- !app_assoc. rewrite (app_assoc (firstn 2 body)), firstn_skipn.
      reflexivity.
    + rewrite blen_app, blen_le_bytes. reflexivity.
    + unfold blen. rewrite length_firstn. lia.
  - (* the flag: its two bytes are written and read *)
    rewrite Hfl in *. cbn [JS.truthy Z.eqb negb] in *.
    change (rev (le_bytes 2 1)) with [Byte.x00; Byte.x01].
    rewrite <- !app_assoc. rewrite Hver.
    unfold BufferReader.bindM at 1. unfold BufferReader.peekUInt16BE.
    rewrite (peek_at 2 _ _ (pre ++ le_bytes 4 (tx_version t)) [Byte.x00; Byte.x01]
               (body ++ post));
      [| rewrite <- !app_assoc; reflexivity
       | rewrite blen_app, blen_le_bytes; reflexivity
       | reflexivity].
    unfold BufferReader.bindM at 1.
    change (be_value [Byte.x00; Byte.x01] =? 1) with true. cbv iota.
    unfold BufferReader.readUInt16BE. unfold BufferReader.bindM at 1.
    rewrite (reads_at _ _ _ (reads_read 2 [Byte.x00; Byte.x01] eq_refl) _ _
               (pre ++ le_bytes 4 (tx_version t)) (body ++ post));
      [| rewrite <- !app_assoc; reflexivity
       | rewrite blen_app, blen_le_bytes; reflexivity].
    unfold BufferReader.ret at 1.
    change (be_value [Byte.x00; Byte.x01]) with 1.
    rewrite (reads_at _ _ _ Hbody _ _
               (pre ++ le_bytes 4 (tx_version t) ++ [Byte.x00; Byte.x01]) post).
    + f_equal. f_equal. f_equal.
      rewrite !blen_app, blen_le_bytes. change (blen [Byte.x00; Byte.x01]) with 2. lia.
    + rewrite <- !app_assoc. reflexivity.
    + rewrite !blen_app, blen_le_bytes. change (blen [Byte.x00; Byte.x01]) with 2. lia.
Qed.

Lemma reads_parseAuxPoW (a : AuxPow) :
  payload_shape a ->
  payload_mirrored readVarintNum writeVarintNum a ->
  well_marked writeVarintNum (coinbaseTxn a) ->
  reads (parseAuxPoW readVarintNum any_script nested_header)
    (AuxPow_bytes writeVarintNum a) a.
Proof.
  destruct a as [tx bh cb bb parent]. unfold payload_shape, payload_mirrored, AuxPow_bytes.
  cbn [coinbaseTxn blockHash coinbaseBranch blockchainBranch parentBlock].
  intros (Stx & Hbh & (Lcb & Acb & Mcb) & (Lbb & Abb & Mbb) & pb & Hpb & ->)
         (Mtx & Ncb & Nbb) Hmark.
  unfold parseAuxPoW.
  apply reads_bind with (x := tx); [apply reads_getTxn; assumption |].
  apply reads_bind with (x := bh); [apply reads_read; unfold blen; lia |].
  apply reads_bind with (x := cb); [apply reads_merkleBranch; assumption |].
  apply reads_bind with (x := bb); [apply reads_merkleBranch; assumption |].
  rewrite fixed_bytes_decoded by lia.
  rewrite firstn_all2 by (unfold blen in Hpb; lia).
  apply reads_then with (x := pb); [apply reads_read; exact Hpb |].
  rewrite nested_header_ok by lia.
  apply (reads_last (BufferReader.lift (Ok (assign_fields (fixed_info pb None))))
           (fun p => MkAuxPow tx bh cb bb p)).
  apply reads_lift.
Qed.

(** What the payload's decoder returns has the parsed shape. *)
Lemma parseAuxPoW_decoded (accepts : bytes -> bool) (br br' : BufferReader.t)
    (a : AuxPow) :
  parseAuxPoW readVarintNum accepts nested_header br = Ok (a, br') -> payload_shape a.
Proof.
  unfold parseAuxPoW. unfold BufferReader.bindM.
  destruct (getTxn readVarintNum accepts br) as [[tx br1] | e] eqn:Htx; [| discriminate].
  destruct (BufferReader.read 32 br1) as [[bh br2] | e] eqn:Hbh; [| discriminate].
  destruct (merkleBranch readVarintNum br2) as [[cb br3] | e] eqn:Hcb; [| discriminate].
  destruct (merkleBranch readVarintNum br3) as [[bb br4] | e] eqn:Hbb; [| discriminate].
  pose proof (read_inv 80 br4) as H80.
  destruct (BufferReader.read 80 br4) as [[pb br5] | e]; [| discriminate].
  destruct H80 as (Hlen & _).
  unfold BufferReader.lift, BufferReader.ret.
  rewrite nested_header_ok by lia.
  intros H. injection H as <- _.
  unfold payload_shape.
  cbn [coinbaseTxn blockHash coinbaseBranch blockchainBranch parentBlock].
  destruct (getTxn_decoded _ _ _ _ _ Htx)
    as (H1 & H2 & _ & H4 & H5 & H6 & H7 & H8 & H9 & H10).
  destruct (merkleBranch_decoded _ _ _ _ Hcb) as (_ & _ & C1 & C2 & _ & C3 & _).
  destruct (merkleBranch_decoded _ _ _ _ Hbb) as (_ & _ & B1 & B2 & _ & B3 & _).
  split; [unfold txn_shape; repeat (split; [assumption |]); assumption |].
  split; [exact (read_length 32 32 _ _ _ eq_refl Hbh) |].
  split; [unfold branch_shape; repeat split; assumption |].
  split; [unfold branch_shape; repeat split; assumption |].
  exists pb. split; [exact Hlen | reflexivity].
Qed.

(** A parsed payload is in the encoder's range. *)
Lemma payload_shape_in_range (a : AuxPow) :
  payload_shape a -> payload_in_range a = true.
Proof.
  intros ((Hv & Hfl & _ & _ & Sin & _ & _ & Hlt & _) & _ & (_ & _ & Mcb)
          & (_ & _ & Mbb) & pb & Hpb & Hparent).
  unfold payload_in_range, txn_in_range, header_in_range.
  rewrite Hv, Hlt, Mcb, Mbb, Hparent.
  destruct (fields_ok_fixed pb None ltac:(lia)) as (Pv & _ & _ & Pt & Pb & Pn).
  rewrite Pv, Pt, Pb, Pn.
  assert (Hseq : forallb (fun i => is_uint32 (sequence i)) (txIn (coinbaseTxn a)) = true).
  { apply forallb_forall. intros i Hi.
    rewrite Forall_forall in Sin. exact (proj2 (proj2 (proj2 (Sin i Hi)))). }
  rewrite Hseq.
  destruct Hfl as [-> | ->]; reflexivity.
Qed.

End PayloadRoundtrip.

Lemma concat_write (bw : BufferWriter.t) (b : bytes) :
  BufferWriter.concat (BufferWriter.write bw b) = BufferWriter.concat bw ++ b.
Proof.
  unfold BufferWriter.concat, BufferWriter.write. cbn [BufferWriter.bufs].
  rewrite concat_app. cbn [List.concat]. rewrite app_nil_r. reflexivity.
Qed.

Lemma concat_fixed_chunks (h : BlockHeader) :
  BufferWriter.concat (fixed_chunks h) = fixed_bytes h.
Proof.
  unfold BufferWriter.concat, fixed_chunks, fixed_bytes.
  cbn [BufferWriter.bufs List.concat]. rewrite app_nil_r. reflexivity.
Qed.

Section HeaderRoundtrip.

Variable sha256sha256 : bytes -> bytes.
Variable readVarintNum : BufferReader.M Z.
Variable writeVarintNum : Z -> bytes.

Local Abbreviation payload_writer := (AuxPow_writer writeVarintNum).
Local Abbreviation decode := (fromBuffer sha256sha256 payload_writer readVarintNum).
Local Abbreviation encode := (toBuffer payload_writer).


End HeaderRoundtrip.

(** Compact sizes below 0xFD are one byte, written and read back. *)
Lemma compactSize_mirrored (n : Z) :
  0 <= n < 0xFD -> mirrored compactSize writeCompactSize n.
Proof.
  intros Hn pre post. unfold writeCompactSize.
  destruct (Z.ltb_spec n 0xFD) as [_ | Hge]; [| lia].
  unfold compactSize. unfold BufferReader.bindM at 1.
  rewrite (read_at 1 pre (le_bytes 1 n) post eq_refl).
  rewrite le_value_le_bytes. change (256 ^ Z.of_nat 1) with 256.
  rewrite Z.mod_small by lia.
  rewrite blen_le_bytes. change (Z.of_nat 1) with 1.
  destruct n as [| p | p]; [reflexivity | | lia].
  do 8 (try destruct p as [p | p |]; try reflexivity); lia.
Qed.


